(** * URL shortener service: the mapping logic of [url-shortener.js]

    A shallow embedding of the [UrlShortener] class (methods [make], [add],
    [query], [info], [deactivate], [clear], [_lookupInfo], [_setActiveStatus],
    [_shorten]) and of the helper [splitUrl], followed by the properties
    of the mapping store that the service maintains.

    Modelling conventions.
    - A JavaScript string is a [string] of 8-bit characters, read as the
      code units U+0000..U+00FF.
    - The two Mongo collections [infos] and [urls] are finite maps keyed by
      the documents' [_id]; the rest of a document is the map's value.
    - [count] is a JavaScript number holding a non-negative integer; it is
      modelled as [N], and [info.count + 1] is the addition of doubles,
      [Number_add1]: exact below 2^53, rounded from there on.
    - [lib544.isDomainError], [Math.random] and [mongo.connect] are not part
      of the repository; they are parameters of the development.

    The handlers of the web service, [shortener-ws.js], are embedded after
    the class: what a handler does to the Express response is the value it
    returns. The parameter [url] of the query string is a string or one of
    the other values that Express gives; the [text] of the body is a
    string. *)

From Stdlib Require Import NArith ZArith QArith Qround Ascii String.
From Stdlib Require Import DecimalString.
From stdpp Require Import base option gmap strings list fin_maps.

Local Open Scope string_scope.
Local Open Scope N_scope.

(** [simpl] unfolds an append whose first argument begins with a
    character. *)
#[local] Arguments String.append !_ _ : simpl nomatch.

(** ** Characters and strings *)

Definition char_code (c : ascii) : N := N_of_ascii c.

Definition in_range (lo hi : N) (c : ascii) : bool :=
  (lo <=? char_code c) && (char_code c <=? hi).

(** The class [\w]: [A-Za-z0-9_]. *)
Definition is_word (c : ascii) : bool :=
  in_range 65 90 c || in_range 97 122 c || in_range 48 57 c || (char_code c =? 95).

(** The class [[^/]]. *)
Definition not_slash (c : ascii) : bool := negb (char_code c =? 47).

(** What [.] matches: everything but a line terminator (LF, CR). *)
Definition not_line_terminator (c : ascii) : bool :=
  negb ((char_code c =? 10) || (char_code c =? 13)).

(** [String.prototype.toLowerCase] on one code unit below U+0100:
    [A-Z], and the Latin-1 capitals U+00C0..U+00DE but the sign U+00D7. *)
Definition lower_char (c : ascii) : ascii :=
  if in_range 65 90 c || (in_range 192 222 c && negb (char_code c =? 215))
  then ascii_of_N (char_code c + 32) else c.

Fixpoint toLowerCase (s : string) : string :=
  match s with
  | EmptyString => EmptyString
  | String c s' => String (lower_char c) (toLowerCase s')
  end.

(** The longest prefix of [s] whose characters satisfy [p], and what is
    left: a greedy [p+] or [p*] at the head of [s]. *)
Fixpoint span (p : ascii -> bool) (s : string) : string * string :=
  match s with
  | EmptyString => (EmptyString, EmptyString)
  | String c s' =>
      if p c then let '(a, b) := span p s' in (String c a, b)
      else (EmptyString, s)
  end.

Fixpoint all_chars (p : ascii -> bool) (s : string) : bool :=
  match s with
  | EmptyString => true
  | String c s' => p c && all_chars p s'
  end.

(** [s.slice(1)] *)
Definition slice1 (s : string) : string :=
  match s with
  | EmptyString => EmptyString
  | String _ s' => s'
  end.

(** ** The regular expressions of the source *)

(** The pattern of [splitUrl], tried at the head of [s]: a group of one
    or more word characters (the scheme), the separator [://], a group of
    one or more characters other than [/] (the base), and a group of any
    characters up to the end of the line (the rest). The greedy scheme
    group takes the whole run of word characters: a shorter run is followed
    by a word character, never by [:], so backtracking into it cannot
    succeed. The base group takes the whole run up to the first [/] and
    the last group the rest of the line; nothing follows the last group, so
    the first attempt is the match. *)
Definition match_here (s : string) : option (string * string * string) :=
  match span is_word s with
  | (EmptyString, _) => None
  | (scheme, String ":" (String "/" (String "/" t))) =>
      match span not_slash t with
      | (EmptyString, _) => None
      | (base, t') => Some (scheme, base, fst (span not_line_terminator t'))
      end
  | _ => None
  end.

(** [url.match] with the pattern of [splitUrl]: the leftmost position at
    which the pattern matches, and the three groups of the match. *)
Fixpoint url_match (s : string) : option (string * string * string) :=
  match s with
  | EmptyString => None
  | String _ s' =>
      match match_here s with
      | Some m => Some m
      | None => url_match s'
      end
  end.

(** [/^https?$/i.test(scheme)] *)
Definition ci_match (p c : ascii) : bool := bool_decide (lower_char c = p).

Definition https_regex (scheme : string) : bool :=
  match scheme with
  | String h (String t1 (String t2 (String p r))) =>
      ci_match "h" h && ci_match "t" t1 && ci_match "t" t2 && ci_match "p" p &&
      match r with
      | EmptyString => true
      | String s EmptyString => ci_match "s" s
      | _ => false
      end
  | _ => false
  end.

(** ** [Number.prototype.toString(36)] on a non-negative integer *)

Definition digit36 (d : N) : ascii :=
  if d <? 10 then ascii_of_N (48 + d) else ascii_of_N (87 + d).

Fixpoint toString36_aux (fuel : nat) (n : N) (acc : string) : string :=
  match fuel with
  | O => acc
  | S fuel' =>
      let acc' := String (digit36 (n mod 36)) acc in
      if n / 36 =? 0 then acc' else toString36_aux fuel' (n / 36) acc'
  end.

Definition toString36 (n : N) : string :=
  toString36_aux (S (N.to_nat (N.log2 n))) n EmptyString.

Definition MAX_RAND : N := 2 ^ 32.

(** ** Errors and results *)

Inductive ErrorCode : Type :=
  | URL_SYNTAX
  | DOMAIN
  | NOT_FOUND
  | BAD_MONGO_URL
  | BAD_SHORTENER_BASE
  | MONGO_ERROR  (* an exception of the Mongo driver, not one of the service *)
  | TYPE_ERROR.  (* a [TypeError] of the engine: it has no [code] *)

Record Error : Type := makeError { code : ErrorCode; message : string }.

Inductive outcome (A : Type) : Type :=
  | Return (a : A)
  | Throw (e : Error).
Arguments Return {A} a.
Arguments Throw {A} e.

(** A parameter of the query string as Express parses it: a string;
    [undefined] when the query string does not have the parameter; an array
    or an object when the parameter is repeated or written with brackets. *)
Inductive QueryValue : Type :=
  | QString (s : string)
  | QUndefined
  | QArray
  | QObject.

(** The double quote, for the messages that quote a scheme. *)
Definition dquote : string := String (ascii_of_N 34) EmptyString.

(** ** Data model *)

(** What [splitUrl] returns on success. *)
Record Components : Type :=
  { scheme : string; base : string; rest : string }.

(** A document of the collection [infos]; its [_id] is the key under
    which the map holds it. *)
Record Info : Type :=
  { longUrl : string; shortUrl : string; count : N; isActive : bool }.

Definition set_isActive (status : bool) (d : Info) : Info :=
  {| longUrl := longUrl d; shortUrl := shortUrl d; count := count d;
     isActive := status |}.

Definition set_count (n : N) (d : Info) : Info :=
  {| longUrl := longUrl d; shortUrl := shortUrl d; count := n;
     isActive := isActive d |}.

(** [x + 1] for a JavaScript number [x] that holds a non-negative integer:
    the sum rounded to the nearest double, a tie going to the even
    mantissa. Below 2^53 every integer is a double and the sum is exact.
    From 2^53 to 2^54 the doubles are the even integers, so the sum lies
    halfway between [x] and [x + 2]. From 2^54 on the nearest double to the
    sum is [x] itself. *)
Definition Number_add1 (x : N) : N :=
  if x <? 2 ^ 53 then x + 1
  else if x <? 2 ^ 54 then (if x mod 4 =? 0 then x else x + 2)
  else x.

(** The doubles around [n] are the multiples of [double_ulp n]: a double
    has a mantissa of 53 bits. *)
Definition double_ulp (n : N) : N := 2 ^ (N.log2 n - 52).

Definition is_double (n : N) : Prop := n mod double_ulp n = 0.

(** Rounding of an integer to the nearest double, ties to even. *)
Definition round_double (n : N) : N :=
  let u := double_ulp n in
  let q := n / u in
  let r := n mod u in
  if 2 * r <? u then q * u
  else if u <? 2 * r then (q + 1) * u
  else if N.even q then q * u else (q + 1) * u.

(** The database and the number of calls of [Math.random] so far.
    [infos] maps a short key to its document, [urls] maps a long key to the
    [shortUrl] field of its document. *)
Record World : Type :=
  { infos : gmap string Info; urls : gmap string string; random_calls : nat }.

Definition with_infos (m : gmap string Info) (w : World) : World :=
  {| infos := m; urls := urls w; random_calls := random_calls w |}.

Definition with_urls (m : gmap string string) (w : World) : World :=
  {| infos := infos w; urls := m; random_calls := random_calls w |}.

Definition empty_world : World :=
  {| infos := ∅; urls := ∅; random_calls := 0 |}.

(** An instance of the class: [this.base], and the name of the database
    that [this.infos] and [this.urls] belong to. *)
Record UrlShortener : Type := { this_base : string; this_db : string }.

(** ** Operations of a Mongo collection *)

(** [insertOne]: the driver throws on a duplicate [_id]. *)
Definition insertOne {V} (k : string) (v : V) (m : gmap string V)
  : outcome (gmap string V) :=
  match m !! k with
  | Some _ => Throw (makeError MONGO_ERROR ("duplicate key " +:+ k))
  | None => Return (<[k := v]> m)
  end.

(** [updateOne({_id: k}, {$set: ...})]: nothing happens without a match. *)
Definition updateOne {V} (k : string) (f : V -> V) (m : gmap string V)
  : gmap string V := alter f k m.

(** ** The monad of the asynchronous methods

    A method reads and writes the world and returns or throws; [None] is
    a retry loop that has used up its fuel. *)
Definition M (A : Type) : Type := World -> option (outcome A * World).

Definition ret {A} (a : A) : M A := fun w => Some (Return a, w).
Definition throw {A} (e : Error) : M A := fun w => Some (Throw e, w).
Definition bind {A B} (m : M A) (k : A -> M B) : M B :=
  fun w =>
    match m w with
    | None => None
    | Some (Throw e, w') => Some (Throw e, w')
    | Some (Return a, w') => k a w'
    end.
Definition gets {A} (f : World -> A) : M A := fun w => Some (Return (f w), w).
Definition modify (f : World -> World) : M unit :=
  fun w => Some (Return tt, f w).
Definition lift {A} (o : outcome A) : M A := fun w => Some (o, w).

#[global] Instance M_ret : MRet M := @ret.
#[global] Instance M_bind : MBind M := fun A B k m => bind m k.

(** The constructor: [this.base = base.toLowerCase()]. *)
Definition new_UrlShortener (base db : string) : UrlShortener :=
  {| this_base := toLowerCase base; this_db := db |}.

(** JavaScript truthiness of a string-or-null: a non-empty string. *)
Definition truthy (v : option string) : option string :=
  match v with
  | Some (String c s) => Some (String c s)
  | _ => None
  end.

(** ** Sample collaborators, for the examples

    A validator that accepts a non-empty authority of letters, digits,
    [_], [.], [-] and [:]; a random source whose draws are
    0, 0, 1, 1, 2, 2, ... out of [MAX_RAND], so that every other draw
    collides with the one before; a connection that always succeeds. *)
Definition sample_isBaseError (domain : string) : option string :=
  if all_chars (fun c => is_word c || (char_code c =? 46) || (char_code c =? 45)
                         || (char_code c =? 58)) domain
     && negb (bool_decide (domain = EmptyString))
  then None else Some ("bad domain " +:+ domain).

Definition sample_random (i : nat) : Q :=
  (inject_Z (Z.of_nat (Nat.div i 2)) / inject_Z (Z.of_N MAX_RAND))%Q.

Definition sample_TypeError_message (v : QueryValue) : string :=
  match v with
  | QUndefined => "Cannot read property 'match' of undefined"
  | _ => "url.match is not a function"
  end.

Definition sample_connect (url : string) : option Error :=
  if String.prefix "mongodb://" url then None
  else Some (makeError MONGO_ERROR "Invalid connection string").

Definition sample_service : UrlShortener :=
  new_UrlShortener "Example.com:3000" "urls".

(** The store of the sample service after [add("http://foo.com/bar")],
    and the same store with that mapping deactivated after three queries. *)
Definition sample_world : World :=
  {| infos := {[ "example.com:3000/0" :=
                  {| longUrl := "foo.com/bar"; shortUrl := "example.com:3000/0";
                     count := 0; isActive := true |} ]};
     urls := {[ "foo.com/bar" := "example.com:3000/0" ]};
     random_calls := 1 |}.

Definition sample_world_inactive : World :=
  {| infos := {[ "example.com:3000/0" :=
                  {| longUrl := "foo.com/bar"; shortUrl := "example.com:3000/0";
                     count := 3; isActive := false |} ]};
     urls := {[ "foo.com/bar" := "example.com:3000/0" ]};
     random_calls := 1 |}.

(** The store of [sample_world] with the [count] of its record at 2^53. *)
Definition sample_world_limit : World :=
  {| infos := {[ "example.com:3000/0" :=
                  {| longUrl := "foo.com/bar"; shortUrl := "example.com:3000/0";
                     count := 2 ^ 53; isActive := true |} ]};
     urls := {[ "foo.com/bar" := "example.com:3000/0" ]};
     random_calls := 1 |}.

(** The store of [sample_world] after [add("http://foo.com/baz")]: the
    draw after the first collides with it, the next one is free. *)
Definition sample_world_two : World :=
  {| infos := <[ "example.com:3000/1" :=
                  {| longUrl := "foo.com/baz"; shortUrl := "example.com:3000/1";
                     count := 0; isActive := true |} ]> (infos sample_world);
     urls := <[ "foo.com/baz" := "example.com:3000/1" ]> (urls sample_world);
     random_calls := 3 |}.

(** ** The service *)

Section Service.

(** [lib544.isDomainError]: an error message for an authority that is not
    a valid domain with an optional port, nothing (a falsy value) for one
    that is. *)
Variable isBaseError : string -> option string.

(** [Math.random()]: the value of its [i]-th call, a number in [0, 1). *)
Variable Math_random : nat -> Q.

(** [mongo.connect]: the driver's exception when the connection fails. *)
Variable mongo_connect : string -> option Error.

Definition splitUrl (url : string) (schemeRegex : option (string -> bool))
  : Error + Components :=
  match url_match url with
  | None => inl (makeError URL_SYNTAX ("bad URL " +:+ url))
  | Some (scheme, base, rest) =>
      match truthy (isBaseError base) with
      | Some err => inl (makeError URL_SYNTAX err)
      | None =>
          if match schemeRegex with
             | Some re => negb (re scheme)
             | None => false
             end
          then inl (makeError URL_SYNTAX
                      ("invalid scheme " +:+ dquote +:+ scheme +:+ dquote))
          else inr {| scheme := toLowerCase scheme;
                      base := toLowerCase base;
                      rest := rest |}
      end
  end.

Definition make (mongoDbUrl shortenerBase : string) : outcome UrlShortener :=
  match splitUrl mongoDbUrl None with
  | inl e => Throw (makeError BAD_MONGO_URL (message e))
  | inr components =>
      if decide (scheme components ≠ "mongodb") then
        Throw (makeError BAD_MONGO_URL
                 ("bad scheme " +:+ dquote +:+ scheme components +:+ dquote
                  +:+ "; must be " +:+ dquote +:+ "mongodb" +:+ dquote))
      else
        let db := slice1 (rest components) in
        match truthy (isBaseError shortenerBase) with
        | Some err => Throw (makeError BAD_SHORTENER_BASE err)
        | None =>
            match mongo_connect mongoDbUrl with
            | Some e => Throw e
            | None => Return (new_UrlShortener shortenerBase db)
            end
        end
  end.

Variable this : UrlShortener.

Definition clear : M unit :=
  modify (with_infos ∅) ≫= λ _, modify (with_urls ∅).

Definition _setActiveStatus (info : Info) (status : bool) : M unit :=
  modify (fun w =>
    with_infos (updateOne (shortUrl info) (set_isActive status) (infos w)) w).

Definition _lookupInfo (components : Components) : M (option Info) :=
  let key := base components +:+ rest components in
  if decide (base components = this_base this) then
    gets (fun w => infos w !! key)
  else
    shortLongMap ← gets (fun w => urls w !! key);
    match shortLongMap with
    | None => ret None
    | Some shortKey => gets (fun w => infos w !! shortKey)
    end.

(** [Math.floor(MAX_RAND * Math.random()).toString(36)] under [this.base].
    The loop of the source tests [this.urls[shortKey]], a property of the
    collection handle and not a document: the handle has no property
    whose name contains [/], so the body runs once. *)
Definition _shorten (components : Components) : M string :=
  i ← gets random_calls;
  modify (fun w => {| infos := infos w; urls := urls w;
                      random_calls := S (random_calls w) |});;
  let shortened :=
    toString36 (Z.to_N (Qfloor (inject_Z (Z.of_N MAX_RAND) * Math_random i))) in
  ret (this_base this +:+ "/" +:+ shortened).

(** The loop of [add] that draws short keys until one is not in [infos]. *)
Fixpoint new_shortKey (fuel : nat) (components : Components) : M string :=
  match fuel with
  | O => fun _ => None
  | S fuel' =>
      shortKey ← _shorten components;
      found ← gets (fun w => infos w !! shortKey);
      match found with
      | Some _ => new_shortKey fuel' components
      | None => ret shortKey
      end
  end.

Definition add (fuel : nat) (longUrl : string) : M string :=
  match splitUrl longUrl (Some https_regex) with
  | inl e => throw e
  | inr components =>
      if decide (base components = this_base this) then
        throw (makeError DOMAIN
                 ("url " +:+ longUrl +:+ " has same base " +:+ this_base this
                  +:+ " as shortener"))
      else
        found ← _lookupInfo components;
        info ← match found with
               | Some info => ret info
               | None =>
                   let longKey := base components +:+ rest components in
                   shortKey ← new_shortKey fuel components;
                   let info := {| longUrl := longKey; shortUrl := shortKey;
                                  count := 0; isActive := true |} in
                   m ← gets infos;
                   m' ← lift (insertOne shortKey info m);
                   modify (with_infos m');;
                   u ← gets urls;
                   u' ← lift (insertOne longKey shortKey u);
                   modify (with_urls u');;
                   ret info
               end;
        (if isActive info then ret tt else _setActiveStatus info true);;
        ret (scheme components +:+ "://" +:+ shortUrl info)
  end.

(** [query] after its [await this._lookupInfo(components)]. *)
Definition query_resume (shortUrl_arg : string) (components : Components)
    (found : option Info) : M string :=
  match found with
  | Some info =>
      if isActive info then
        modify (fun w =>
          with_infos (updateOne (shortUrl info)
                        (set_count (Number_add1 (count info)))
                        (infos w)) w);;
        ret (scheme components +:+ "://" +:+ longUrl info)
      else throw (makeError NOT_FOUND (shortUrl_arg +:+ " not found"))
  | None => throw (makeError NOT_FOUND (shortUrl_arg +:+ " not found"))
  end.

(** [query] up to that [await]: the components to look up. *)
Definition query_start (shortUrl_arg : string) : outcome Components :=
  match splitUrl shortUrl_arg (Some https_regex) with
  | inl e => Throw e
  | inr components =>
      if decide (this_base this ≠ base components) then
        Throw (makeError DOMAIN
                 ("url " +:+ shortUrl_arg +:+ " differs from domain "
                  +:+ this_base this))
      else Return components
  end.

Definition query (shortUrl_arg : string) : M string :=
  components ← lift (query_start shortUrl_arg);
  found ← _lookupInfo components;
  query_resume shortUrl_arg components found.

Definition info (url : string) : M Info :=
  match splitUrl url (Some https_regex) with
  | inl e => throw e
  | inr components =>
      found ← _lookupInfo components;
      match found with
      | None => throw (makeError NOT_FOUND (url +:+ " not found"))
      | Some info => ret info
      end
  end.

Definition deactivate (url : string) : M unit :=
  match splitUrl url (Some https_regex) with
  | inl e => throw e
  | inr components =>
      found ← _lookupInfo components;
      match found with
      | None => throw (makeError NOT_FOUND (url +:+ " not found"))
      | Some info =>
          if isActive info then _setActiveStatus info false else ret tt
      end
  end.


(** Two calls of [query] served one after the other. *)
Definition query_in_turn (u1 u2 : string) : M (string * string) :=
  v1 ← query u1;
  v2 ← query u2;
  mret (v1, v2).

(** Two concurrent calls of [query], each suspended at its
    [await this._lookupInfo(components)] until both lookups have been
    answered, and then resumed in turn. *)
Definition query_interleaved (u1 u2 : string) : M (string * string) :=
  c1 ← lift (query_start u1);
  c2 ← lift (query_start u2);
  found1 ← _lookupInfo c1;
  found2 ← _lookupInfo c2;
  v1 ← query_resume u1 c1 found1;
  v2 ← query_resume u2 c2 found2;
  mret (v1, v2).

(** ** Requests, replies and runs of the service *)

Inductive Request : Type :=
  | Add (longUrl : string)
  | Query (shortUrl : string)
  | GetInfo (url : string)
  | Deactivate (url : string).

Inductive Reply : Type :=
  | Value (value : string)
  | InfoOf (d : Info)
  | Done.

Definition handle (fuel : nat) (req : Request) : M Reply :=
  match req with
  | Add u => v ← add fuel u; ret (Value v)
  | Query u => v ← query u; ret (Value v)
  | GetInfo u => d ← info u; ret (InfoOf d)
  | Deactivate u => deactivate u;; ret Done
  end.

(** A run: requests of the four methods served one after the other,
    each with what it returned or threw. The administrative [clear] is
    not a request of a run. *)
Inductive steps : World -> list (Request * outcome Reply) -> World -> Prop :=
  | steps_nil w : steps w [] w
  | steps_cons w fuel req out w1 es w2 :
      handle fuel req w = Some (out, w1) ->
      steps w1 es w2 ->
      steps w ((req, out) :: es) w2.

(** The short key that a [query] looks up. *)
Definition query_key (shortUrl_arg : string) : option string :=
  match query_start shortUrl_arg with
  | Return components => Some (base components +:+ rest components)
  | Throw _ => None
  end.

(** The number of successful queries of the short key [sk] in a run. *)
Fixpoint successful_queries (sk : string)
    (es : list (Request * outcome Reply)) : N :=
  match es with
  | [] => 0
  | (Query u, Return _) :: es' =>
      (if decide (query_key u = Some sk) then 1 else 0)
      + successful_queries sk es'
  | _ :: es' => successful_queries sk es'
  end.

(** ** The invariant of the store *)

(** The short key of the [i]-th draw of the random source. *)
Definition draw_key (i : nat) : string :=
  this_base this +:+ "/" +:+
  toString36 (Z.to_N (Qfloor (inject_Z (Z.of_N MAX_RAND) * Math_random i))).

(** A short key minted by this service: [<base>/<token>]. *)
Definition minted (sk : string) : Prop :=
  exists n, sk = this_base this +:+ "/" +:+ toString36 n.

(** Every entry of the long index leads to the record of that long URL;
    every record is stored under its own short key, is reached from the
    long index, and has a short key minted by this service. *)
Definition store_wf (w : World) : Prop :=
  (forall k sk, urls w !! k = Some sk ->
     exists d, infos w !! sk = Some d /\ longUrl d = k) /\
  (forall sk d, infos w !! sk = Some d ->
     shortUrl d = sk /\ urls w !! longUrl d = Some sk /\ minted sk).

(** The service base is an authority that the validator accepts, in
    lower case as the constructor leaves it: a domain and an optional
    port, so not empty and without [/]. *)
Definition well_configured : Prop :=
  truthy (isBaseError (this_base this)) = None /\
  this_base this <> EmptyString /\
  all_chars not_slash (this_base this) = true /\
  toLowerCase (this_base this) = this_base this.

(** The key under which a URL is stored and looked up. *)
Definition key_of (components : Components) : string :=
  base components +:+ rest components.

(** The random source will draw a short key that is not in use. *)
Definition fresh_draw_ahead (w : World) : Prop :=
  exists n, infos w !! draw_key (random_calls w + n) = None.



(** What [_lookupInfo] finds in a world. *)
Definition found_in (w : World) (components : Components) : option Info :=
  if decide (base components = this_base this) then
    infos w !! key_of components
  else
    match urls w !! key_of components with
    | None => None
    | Some shortKey => infos w !! shortKey
    end.

(** The record that [add] creates. *)
Definition new_info (longKey shortKey : string) : Info :=
  {| longUrl := longKey; shortUrl := shortKey; count := 0; isActive := true |}.

(** What a call does to a well-formed store: nothing, an update of the
    [count] or of the [isActive] of one record, or the creation of a
    record under an unused short key with its entry in the long index. *)
Inductive transition : World -> World -> Prop :=
  | transition_none w : transition w w
  | transition_update w f sk :
      (forall d, longUrl (f d) = longUrl d /\ shortUrl (f d) = shortUrl d) ->
      transition w (with_infos (updateOne sk f (infos w)) w)
  | transition_create w lk i rc :
      infos w !! draw_key i = None ->
      urls w !! lk = None ->
      transition w
        {| infos := <[draw_key i := new_info lk (draw_key i)]> (infos w);
           urls := <[lk := draw_key i]> (urls w);
           random_calls := rc |}.

(** The world after one more call of [Math.random]. *)
Definition bump (w : World) : World :=
  {| infos := infos w; urls := urls w; random_calls := S (random_calls w) |}.

(** ** Reading a token back *)

(** The digits that [toString36] writes: [0-9a-z]. *)
Definition is_digit36 (c : ascii) : bool :=
  in_range 48 57 c || in_range 97 122 c.

Definition digit_value (c : ascii) : N :=
  if in_range 48 57 c then char_code c - 48 else char_code c - 87.

(** The number that a string of such digits denotes in base 36. *)
Fixpoint from36_go (acc : N) (s : string) : N :=
  match s with
  | EmptyString => acc
  | String c s' => from36_go (acc * 36 + digit_value c) s'
  end.

Definition from36 (s : string) : N := from36_go 0 s.

(** The integer that [_shorten] renders at the [i]-th call of
    [Math.random]. *)
Definition drawn (i : nat) : N :=
  Z.to_N (Qfloor (inject_Z (Z.of_N MAX_RAND) * Math_random i)).

(** ** The web service

    The handlers of [shortener-ws.js]. A request carries the fields of the
    Express request that the handlers read; a response is the calls that
    a handler makes on the Express response. *)

Definition OK : N := 200.
Definition CREATED : N := 201.
Definition BAD_REQUEST : N := 400.
Definition HTTP_NOT_FOUND : N := 404. (* the constant [NOT_FOUND] of the file *)
Definition CONFLICT : N := 409.
Definition SERVER_ERROR : N := 500.

(** [req.protocol], [req.hostname] and [req.originalUrl], as the template
    literal of [requestUrl] writes them, [req.query.url] and
    [req.body.text]. *)
Record Req : Type :=
  { protocol : string; hostname : string; originalUrl : string;
    query_url : QueryValue; body_text : string }.

(** The argument of [res.json]. *)
Inductive Json : Type :=
  | JValue (value : string)                    (* [{value}] *)
  | JInfo (d : Info)                           (* the result of [info] *)
  | JError (status : N) (code : ErrorCode) (message : string)
      (* [{status, code, message}]; the text has no [code] for [TYPE_ERROR] *)
  | JServerError (message : string)  (* [{code: 'SERVER_ERROR', message}] *)
  | JText (text : string).                     (* a string *)

(** [res.status(s); res.json(b)], [res.sendStatus(s)] and
    [res.redirect(url)]. *)
Inductive Response : Type :=
  | SendJson (status : N) (body : Json)
  | SendStatus (status : N)
  | RedirectTo (url : string).

(** [app.locals.port] *)
Variable port : N.

(** The message of the [TypeError] that the engine raises for [url.match]
    when [url] is the given value, which is not a string. *)
Variable TypeError_message : QueryValue -> string.

(** A number in a template literal: an integer is written in decimal. *)
Definition Number_toString (n : N) : string :=
  NilZero.string_of_uint (N.to_uint n).

(** [try { m } catch (err) { handler(err) }] *)
Definition catch {A} (m : M A) (handler : Error -> M A) : M A :=
  fun w =>
    match m w with
    | Some (Throw err, w') => handler err w'
    | other => other
    end.

Definition doErrors (err : Error) : Response :=
  SendJson SERVER_ERROR (JServerError (message err)).

Definition errorWrap (handler : M Response) : M Response :=
  catch handler (fun err => mret (doErrors err)).

Definition requestUrl (req : Req) : string :=
  protocol req +:+ "://" +:+ hostname req +:+ ":" +:+ Number_toString port
  +:+ originalUrl req.

(** A method of the model called with [req.query.url]. Each of [add],
    [info] and [deactivate] begins with [splitUrl] of its argument, which
    begins with [url.match]: for a value that is not a string this raises a
    [TypeError], and the promise of the method is rejected with it. *)
Definition with_url {A} (method : string -> M A) (url : QueryValue) : M A :=
  match url with
  | QString s => method s
  | _ => throw (makeError TYPE_ERROR (TypeError_message url))
  end.

Definition load_url (req : Req) : M Response :=
  errorWrap
    (catch (result ← query (requestUrl req); mret (RedirectTo result))
       (fun err =>
          mret (SendJson HTTP_NOT_FOUND
                  (JError HTTP_NOT_FOUND (code err) (message err))))).

Definition add_url (fuel : nat) (req : Req) : M Response :=
  errorWrap
    (catch (result ← with_url (add fuel) (query_url req);
            mret (SendJson CREATED (JValue result)))
       (fun err =>
          mret (SendJson BAD_REQUEST
                  (JError BAD_REQUEST (code err) (message err))))).

Definition deactivate_url (req : Req) : M Response :=
  errorWrap
    (catch (with_url deactivate (query_url req);; mret (SendStatus OK))
       (fun err =>
          mret (SendJson HTTP_NOT_FOUND
                  (JError HTTP_NOT_FOUND (code err) (message err))))).

(** [get_info] sets no status before [res.json(result)]: Express answers
    200. *)
Definition get_info (req : Req) : M Response :=
  errorWrap
    (catch (result ← with_url info (query_url req);
            mret (SendJson OK (JInfo result)))
       (fun err =>
          mret (SendJson HTTP_NOT_FOUND
                  (JError HTTP_NOT_FOUND (code err) (message err))))).

(** The codes of the errors that a handler answers for [req.query.url]:
    those of its method for a string, none for another value. *)
Definition codes_for (url : QueryValue) (codes : list ErrorCode)
    (c : ErrorCode) : Prop :=
  match url with
  | QString _ => c ∈ codes
  | _ => c = TYPE_ERROR
  end.

(** *** [update_file]: the links of a text *)

(** The class [[a-z0-9]] under the flag [i]. *)
Definition is_alnum (c : ascii) : bool :=
  in_range 97 122 c || in_range 48 57 c || in_range 65 90 c.

(** The class of the eleven characters [_ - / . ? = & % # @ +]. *)
Definition is_separator (c : ascii) : bool :=
  existsb (N.eqb (char_code c)) [95; 45; 47; 46; 63; 61; 38; 37; 35; 64; 43].

(** The end of a link, from inside a run of [[a-z0-9]]: the rest of the
    run, and then each separator that is followed by a character of
    [[a-z0-9]], with the run that this character begins. Both groups are
    greedy and nothing follows them in the pattern, so the longest such
    prefix is the match. The result is that prefix and what is left. *)
Fixpoint url_tail (s : string) : string * string :=
  match s with
  | EmptyString => (EmptyString, EmptyString)
  | String c s' =>
      if is_alnum c then
        let '(m, t) := url_tail s' in (String c m, t)
      else if is_separator c then
        match s' with
        | String c' _ =>
            if is_alnum c' then
              let '(m, t) := url_tail s' in (String c m, t)
            else (EmptyString, s)
        | EmptyString => (EmptyString, s)
        end
      else (EmptyString, s)
  end.

(** [://], a first character of [[a-z0-9]] and the end of the link. *)
Definition after_scheme (s : string) : option (string * string) :=
  match s with
  | String ":" (String "/" (String "/" (String a r))) =>
      if is_alnum a then
        let '(m, t) := url_tail (String a r) in Some ("://" +:+ m, t)
      else None
  | _ => None
  end.

(** The pattern of [update_file] at the head of [s]: [http], an optional
    [s] (taken first, given up when [://] does not follow), and the rest.
    The result is the matched text and what is left of [s]. *)
Definition link_here (s : string) : option (string * string) :=
  match s with
  | String h (String t1 (String t2 (String p r))) =>
      if ci_match "h" h && ci_match "t" t1 && ci_match "t" t2 && ci_match "p" p
      then
        let http := String h (String t1 (String t2 (String p EmptyString))) in
        let without_s :=
          match after_scheme r with
          | Some (m, t) => Some (http +:+ m, t)
          | None => None
          end in
        match r with
        | String c r' =>
            if ci_match "s" c then
              match after_scheme r' with
              | Some (m, t) => Some (http +:+ String c m, t)
              | None => without_s
              end
            else without_s
        | EmptyString => None
        end
      else None
  | _ => None
  end.

(** The first position from [i] on at which the pattern matches [s], the
    text at [i]: the match and the index after it. *)
Fixpoint link_search (s : string) (i : nat) : option (string * nat) :=
  match link_here s with
  | Some (m, _) => Some (m, (i + String.length m)%nat)
  | None =>
      match s with
      | EmptyString => None
      | String _ s' => link_search s' (S i)
      end
  end.

Fixpoint string_drop (n : nat) (s : string) : string :=
  match n, s with
  | O, _ => s
  | S n', String _ s' => string_drop n' s'
  | S _, EmptyString => EmptyString
  end.

(** [regex.exec(text)] of the global pattern with [regex.lastIndex] at
    [lastIndex]: [matches[0]] and the new [lastIndex], or [null]. *)
Definition regex_exec (text : string) (lastIndex : nat) : option (string * nat) :=
  if (lastIndex <=? String.length text)%nat
  then link_search (string_drop lastIndex text) lastIndex
  else None.

(** The text before the first occurrence of [pat] in [s] and the text
    after it. *)
Fixpoint index_of (pat s : string) : option (string * string) :=
  if String.prefix pat s then Some (EmptyString, string_drop (String.length pat) s)
  else
    match s with
    | EmptyString => None
    | String c s' =>
        match index_of pat s' with
        | Some (before, after) => Some (String c before, after)
        | None => None
        end
    end.

(** The replacement text of [String.prototype.replace] for a pattern that
    is a string: [$$] is [$], [$&] the match, [$`] the text before it, [$']
    the text after it; there are no groups, so any other [$] stands for
    itself. *)
Fixpoint get_substitution (matched before after replacement : string) : string :=
  match replacement with
  | EmptyString => EmptyString
  | String c t =>
      if bool_decide (c = "$"%char) then
        match t with
        | String "$" r =>
            String "$" (get_substitution matched before after r)
        | String "&" r =>
            matched +:+ get_substitution matched before after r
        | String "`" r =>
            before +:+ get_substitution matched before after r
        | String "'" r =>
            after +:+ get_substitution matched before after r
        | _ => String "$" (get_substitution matched before after t)
        end
      else String c (get_substitution matched before after t)
  end.

(** [text.replace(pat, replacement)] for a string [pat]: the first
    occurrence only. *)
Definition String_replace (text pat replacement : string) : string :=
  match index_of pat text with
  | None => text
  | Some (before, after) =>
      before +:+ get_substitution pat before after replacement +:+ after
  end.

(** The loop of [update_file] inside its [try]: an exception of [add]
    ends the loop and leaves [new_text] as it is then. *)
Fixpoint replace_links (fuel add_fuel : nat) (new_text : string)
    (lastIndex : nat) : M string :=
  match fuel with
  | O => fun _ => None
  | S fuel' =>
      match regex_exec new_text lastIndex with
      | None => mret new_text
      | Some (matches0, lastIndex') =>
          catch (result ← add add_fuel matches0;
                 replace_links fuel' add_fuel
                   (String_replace new_text matches0 result) lastIndex')
            (fun _ => mret new_text)
      end
  end.

Definition update_file (fuel add_fuel : nat) (req : Req) : M Response :=
  errorWrap
    (new_text ← replace_links fuel add_fuel (body_text req) 0;
     mret (SendJson CREATED (JText new_text))).

(** A character other than the one of code [n]. *)
Definition not_char (n : N) (c : ascii) : bool := negb (char_code c =? n).

(** The number of [/] in a string. *)
Fixpoint slashes (s : string) : nat :=
  match s with
  | EmptyString => O
  | String c s' => if not_slash c then slashes s' else S (slashes s')
  end.


(** * Properties *)

(** ** Numbers: [count + 1] *)

Lemma double_ulp_small n : n < 2 ^ 53 -> double_ulp n = 1.
Proof.
  intros Hn. unfold double_ulp.
  destruct (N.eq_dec n 0) as [->|Hz]; [done |].
  assert (N.log2 n < 53) by (apply N.log2_lt_pow2; lia).
  by replace (N.log2 n - 52) with 0 by lia.
Qed.

Lemma double_ulp_53 n : 2 ^ 53 <= n < 2 ^ 54 -> double_ulp n = 2.
Proof.
  intros Hn. unfold double_ulp.
  by rewrite (N.log2_unique n 53) by (done || lia).
Qed.

Lemma Number_add1_ge x : x <= Number_add1 x.
Proof.
  unfold Number_add1. destruct (x <? 2 ^ 53); [lia |].
  destruct (x <? 2 ^ 54); [| lia]. destruct (x mod 4 =? 0); lia.
Qed.

Lemma Number_add1_exact x : x < 2 ^ 53 -> Number_add1 x = x + 1.
Proof. intros Hx. unfold Number_add1. by rewrite (proj2 (N.ltb_lt _ _) Hx). Qed.

(** On a double, [Number_add1] is the sum rounded to the nearest double. *)
Lemma Number_add1_round x : is_double x -> Number_add1 x = round_double (x + 1).
Proof.
  unfold is_double. intros Hd. unfold Number_add1.
  destruct (N.ltb_spec x (2 ^ 53)) as [Hx|Hx].
  { destruct (N.eq_dec (x + 1) (2 ^ 53)) as [->|Hne]; [done |].
    unfold round_double. rewrite double_ulp_small by lia.
    rewrite N.mod_1_r, N.div_1_r. simpl. lia. }
  destruct (N.ltb_spec x (2 ^ 54)) as [Hy|Hy].
  { rewrite double_ulp_53 in Hd by done.
    assert (Hx1 : 2 ^ 53 <= x + 1 < 2 ^ 54).
    { split; [lia |]. pose proof (N.div_mod x 2).
      assert (2 ^ 54 = 2 * 2 ^ 53) by done. lia. }
    unfold round_double. rewrite double_ulp_53 by done.
    pose proof (N.div_mod x 2 ltac:(done)) as Hdm. rewrite Hd in Hdm.
    assert (Hq : (x + 1) / 2 = x / 2).
    { symmetry. apply (N.div_unique _ _ _ 1); lia. }
    assert (Hr : (x + 1) mod 2 = 1).
    { symmetry. apply (N.mod_unique _ _ (x / 2)); lia. }
    rewrite Hq, Hr.
    change (2 * 1 <? 2) with false. change (2 <? 2 * 1) with false.
    cbv iota.
    destruct (N.Even_or_Odd (x / 2)) as [[m Hm]|[m Hm]].
    - rewrite (proj2 (N.even_spec _)) by (by exists m).
      replace (x mod 4) with 0; [simpl; lia |].
      apply (N.mod_unique _ _ m); lia.
    - rewrite <- N.negb_odd, (proj2 (N.odd_spec _)) by (by exists m).
      replace (x mod 4) with 2; [simpl; lia |].
      apply (N.mod_unique _ _ m); lia. }
  assert (Hpos : 0 < x) by lia.
  pose proof (N.log2_spec x Hpos) as [Hlo Hhi].
  assert (Hk : 54 <= N.log2 x).
  { change 54 with (N.log2 (2 ^ 54)). by apply N.log2_le_mono. }
  set (k := N.log2 x) in *. unfold double_ulp in Hd. fold k in Hd.
  set (u := 2 ^ (k - 52)) in *.
  assert (Hu : 4 <= u).
  { change 4 with (2 ^ 2). apply N.pow_le_mono_r; lia. }
  assert (Hp : 2 ^ N.succ k = u * 2 ^ 53).
  { unfold u. rewrite <- N.pow_add_r. f_equal. lia. }
  pose proof (N.div_mod x u ltac:(lia)) as Hdm. rewrite Hd in Hdm.
  assert (Hm : x / u < 2 ^ 53) by nia.
  assert (Hlog : N.log2 (x + 1) = k).
  { apply N.log2_unique; [lia |]. split; [lia |]. rewrite Hp. nia. }
  unfold round_double, double_ulp. rewrite Hlog. fold u.
  assert (Hq : (x + 1) / u = x / u).
  { symmetry. apply (N.div_unique _ _ _ 1); lia. }
  assert (Hr : (x + 1) mod u = 1).
  { symmetry. apply (N.mod_unique _ _ (x / u)); lia. }
  rewrite Hq, Hr. destruct (N.ltb_spec (2 * 1) u); lia.
Qed.

(** [n] additions of one. *)
Lemma Number_add1_iter_ge n x : x <= N.iter n Number_add1 x.
Proof.
  induction n as [|n IH] using N.peano_ind; [done |].
  rewrite N.iter_succ. pose proof (Number_add1_ge (N.iter n Number_add1 x)). lia.
Qed.

Lemma Number_add1_iter_exact n x :
  x + n <= 2 ^ 53 -> N.iter n Number_add1 x = x + n.
Proof.
  induction n as [|n IH] using N.peano_ind; intros Hn; [simpl; lia |].
  rewrite N.iter_succ, IH, Number_add1_exact by lia. lia.
Qed.

Lemma Number_add1_iter_add n m x :
  N.iter (n + m) Number_add1 x = N.iter m Number_add1 (N.iter n Number_add1 x).
Proof. by rewrite N.add_comm, N.iter_add. Qed.

(** ** Strings and the pattern of [splitUrl] *)

Lemma append_assoc (a b c : string) : (a +:+ b) +:+ c = a +:+ (b +:+ c).
Proof. induction a as [|x a IH]; simpl; [reflexivity | congruence]. Qed.

Lemma append_empty_r (a : string) : a +:+ EmptyString = a.
Proof. induction a as [|x a IH]; simpl; [reflexivity | congruence]. Qed.

Lemma all_chars_append p (a b : string) :
  all_chars p (a +:+ b) = all_chars p a && all_chars p b.
Proof.
  induction a as [|x a IH]; simpl; [reflexivity |].
  rewrite IH. by destruct (p x).
Qed.

(** A run of [p]-characters followed by nothing, or by a character that
    fails [p], is what [span p] splits off. *)
Lemma span_append p (a t : string) :
  all_chars p a = true ->
  (t = EmptyString \/ exists c t', t = String c t' /\ p c = false) ->
  span p (a +:+ t) = (a, t).
Proof.
  intros Ha Ht. induction a as [|x a IH]; simpl in *.
  - destruct Ht as [-> | (c & t' & -> & Hc)]; simpl; [reflexivity |].
    by rewrite Hc.
  - apply andb_prop in Ha as [Hx Ha]. rewrite Hx, (IH Ha). reflexivity.
Qed.

Lemma span_spec p (s a b : string) :
  span p s = (a, b) ->
  s = a +:+ b /\ all_chars p a = true /\
  (b = EmptyString \/ exists c b', b = String c b' /\ p c = false).
Proof.
  revert a b. induction s as [|x s IH]; simpl; intros a b H.
  - inversion H; subst. auto.
  - destruct (p x) eqn:Hx.
    + destruct (span p s) as [a' b'] eqn:Hs. inversion H; subst.
      destruct (IH a' b eq_refl) as (-> & Ha & Hb).
      simpl. rewrite Hx, Ha. auto.
    + inversion H; subst. simpl. split; [reflexivity |].
      split; [reflexivity |]. right. eauto.
Qed.

Lemma not_slash_false c : not_slash c = false -> c = "/"%char.
Proof.
  unfold not_slash, char_code. intros H.
  apply negb_false_iff, N.eqb_eq in H.
  rewrite <- (ascii_N_embedding c), H. reflexivity.
Qed.

(** The groups of a match at the head of a string. *)
Lemma match_here_groups (u s b r : string) :
  match_here u = Some (s, b, r) ->
  (s <> EmptyString /\ all_chars is_word s = true) /\
  (b <> EmptyString /\ all_chars not_slash b = true) /\
  (all_chars not_line_terminator r = true /\
   (r = EmptyString \/ exists r', r = String "/" r')).
Proof.
  unfold match_here. intros H.
  destruct (span is_word u) as [s0 t] eqn:Hs.
  destruct (span_spec _ _ _ _ Hs) as (_ & Hw & _).
  destruct s0 as [|x s0]; [discriminate |].
  destruct t as [|c1 t]; [discriminate |].
  destruct c1 as [[] [] [] [] [] [] [] []]; try discriminate.
  destruct t as [|c2 t]; [discriminate |].
  destruct c2 as [[] [] [] [] [] [] [] []]; try discriminate.
  destruct t as [|c3 t]; [discriminate |].
  destruct c3 as [[] [] [] [] [] [] [] []]; try discriminate.
  destruct (span not_slash t) as [b0 t'] eqn:Hb.
  destruct (span_spec _ _ _ _ Hb) as (_ & Hns & Ht').
  destruct b0 as [|y b0]; [discriminate |].
  destruct (span not_line_terminator t') as [r0 t''] eqn:Hr.
  destruct (span_spec _ _ _ _ Hr) as (Heq & Hnl & _).
  simpl in H. inversion H; subst s b r. clear H.
  repeat split; try done.
  destruct Ht' as [-> | (c & b' & -> & Hc)].
  - simpl in Hr. inversion Hr. auto.
  - apply not_slash_false in Hc. subst c. simpl in Hr.
    destruct (span not_line_terminator b') as [a1 b1].
    inversion Hr. eauto.
Qed.

Lemma url_match_groups (u s b r : string) :
  url_match u = Some (s, b, r) ->
  (s <> EmptyString /\ all_chars is_word s = true) /\
  (b <> EmptyString /\ all_chars not_slash b = true) /\
  (all_chars not_line_terminator r = true /\
   (r = EmptyString \/ exists r', r = String "/" r')).
Proof.
  induction u as [|x u IH]; [discriminate |].
  cbn [url_match]. destruct (match_here (String x u)) as [m|] eqn:Hm.
  - intros H. inversion H; subst m. eapply match_here_groups, Hm.
  - exact IH.
Qed.

Lemma url_match_cons x t :
  url_match (String x t) =
  match match_here (String x t) with
  | Some m => Some m
  | None => url_match t
  end.
Proof. reflexivity. Qed.

(** A string built from three such groups matches at its head, with
    these groups. *)
Lemma url_match_build (s b r : string) :
  s <> EmptyString -> all_chars is_word s = true ->
  b <> EmptyString -> all_chars not_slash b = true ->
  all_chars not_line_terminator r = true ->
  (r = EmptyString \/ exists r', r = String "/" r') ->
  url_match (s +:+ "://" +:+ b +:+ r) = Some (s, b, r).
Proof.
  intros Hs Hw Hb Hns Hnl Hr.
  assert (Hm : match_here (s +:+ "://" +:+ b +:+ r) = Some (s, b, r)).
  { unfold match_here.
    rewrite (span_append is_word s); [| done | right; eexists _, _; done].
    destruct s as [|x s]; [done |]. simpl.
    rewrite (span_append not_slash b); [| done |].
    - destruct b as [|y b]; [done |].
      rewrite <- (append_empty_r r) at 1.
      rewrite (span_append not_line_terminator r); auto.
    - destruct Hr as [-> | (r' & ->)]; [auto |]. right. eexists _, _. done. }
  destruct s as [|x s]; [done |].
  change (String x s +:+ "://" +:+ b +:+ r)
    with (String x (s +:+ "://" +:+ b +:+ r)) in *.
  by rewrite url_match_cons, Hm.
Qed.

(** [toLowerCase] keeps the shape of the groups. *)
Lemma lower_char_idemp c : lower_char (lower_char c) = lower_char c.
Proof. destruct c as [[] [] [] [] [] [] [] []]; reflexivity. Qed.

Lemma lower_char_word c : is_word c = true -> is_word (lower_char c) = true.
Proof. destruct c as [[] [] [] [] [] [] [] []]; vm_compute; done. Qed.

Lemma lower_char_not_slash c :
  not_slash c = true -> not_slash (lower_char c) = true.
Proof. destruct c as [[] [] [] [] [] [] [] []]; vm_compute; done. Qed.

Lemma toLowerCase_idemp s : toLowerCase (toLowerCase s) = toLowerCase s.
Proof.
  induction s as [|x s IH]; simpl; [done |]. by rewrite lower_char_idemp, IH.
Qed.

Lemma toLowerCase_nonempty s : s <> EmptyString -> toLowerCase s <> EmptyString.
Proof. by destruct s. Qed.

Lemma toLowerCase_word s :
  all_chars is_word s = true -> all_chars is_word (toLowerCase s) = true.
Proof.
  induction s as [|x s IH]; simpl; [done |]. intros H.
  apply andb_prop in H as [Hx H]. by rewrite (lower_char_word _ Hx), IH.
Qed.

Lemma toLowerCase_not_slash s :
  all_chars not_slash s = true -> all_chars not_slash (toLowerCase s) = true.
Proof.
  induction s as [|x s IH]; simpl; [done |]. intros H.
  apply andb_prop in H as [Hx H]. by rewrite (lower_char_not_slash _ Hx), IH.
Qed.

Lemma ci_match_lower p c : ci_match p (lower_char c) = ci_match p c.
Proof. unfold ci_match. by rewrite lower_char_idemp. Qed.

Lemma https_regex_lower s : https_regex (toLowerCase s) = https_regex s.
Proof.
  destruct s as [|a [|b [|c [|d [|e [|f r]]]]]]; simpl;
    rewrite ?ci_match_lower; reflexivity.
Qed.

(** The digits of [toString36] are letters and digits. *)
Lemma digit36_not_line_terminator d :
  not_line_terminator (digit36 (d mod 36)) = true.
Proof.
  assert (H : d mod 36 < 36) by (apply N.mod_lt; done).
  remember (d mod 36) as m eqn:Hm. clear Hm.
  rewrite <- (N2Nat.id m). assert (Hn : (N.to_nat m < 36)%nat) by lia.
  remember (N.to_nat m) as n eqn:Hm. clear - Hn.
  do 36 (destruct n as [|n]; [vm_compute; reflexivity |]). lia.
Qed.

Lemma toString36_aux_chars fuel n acc :
  all_chars not_line_terminator acc = true ->
  all_chars not_line_terminator (toString36_aux fuel n acc) = true.
Proof.
  revert n acc. induction fuel as [|fuel IH]; simpl; intros n acc H; [done |].
  destruct (n / 36 =? 0).
  - simpl. by rewrite digit36_not_line_terminator.
  - apply IH. simpl. by rewrite digit36_not_line_terminator.
Qed.

Lemma toString36_chars n :
  all_chars not_line_terminator (toString36 n) = true.
Proof. by apply toString36_aux_chars. Qed.

(** ** The monad and the lookups *)

Lemma _lookupInfo_run (c : Components) (w : World) :
  _lookupInfo c w = Some (Return (found_in w c), w).
Proof.
  unfold _lookupInfo, found_in, key_of.
  destruct (decide (base c = this_base this)); [done |].
unfold mbind, M_bind, bind, gets, mret, M_ret, ret.
  by destruct (urls w !! (base c +:+ rest c)).
Qed.

Lemma draw_key_minted i : minted (draw_key i).
Proof. unfold minted, draw_key. eauto. Qed.

Lemma _shorten_run c w :
  _shorten c w = Some (Return (draw_key (random_calls w)), bump w).
Proof. reflexivity. Qed.

Lemma new_shortKey_step fuel c w :
  new_shortKey (S fuel) c w =
  match infos w !! draw_key (random_calls w) with
  | Some _ => new_shortKey fuel c (bump w)
  | None => Some (Return (draw_key (random_calls w)), bump w)
  end.
Proof.
  cbn [new_shortKey]. unfold mbind, M_bind, bind. rewrite _shorten_run.
  unfold gets. cbn [infos bump].
  by destruct (infos w !! draw_key (random_calls w)).
Qed.

(** The loop returns the first draw that is not in use. *)
Lemma new_shortKey_spec fuel c w out w1 :
  new_shortKey fuel c w = Some (out, w1) ->
  exists i, out = Return (draw_key i) /\ infos w !! draw_key i = None /\
    infos w1 = infos w /\ urls w1 = urls w /\ random_calls w1 = S i.
Proof.
  revert w. induction fuel as [|fuel IH]; intros w; [discriminate |].
  rewrite new_shortKey_step.
  destruct (infos w !! draw_key (random_calls w)) eqn:Hd.
  - intros H. apply IH in H as (j & -> & Hj & ? & ? & ?). eauto 10.
  - intros H. inversion H; subst. eauto 10.
Qed.

(** The loop returns once the random source draws a short key that is
    not in use. *)
Lemma new_shortKey_total n c w :
  infos w !! draw_key (random_calls w + n) = None ->
  exists sk w1, new_shortKey (S n) c w = Some (Return sk, w1).
Proof.
  revert w. induction n as [|n IH]; intros w Hn; rewrite new_shortKey_step.
  - rewrite Nat.add_0_r in Hn. rewrite Hn. eauto.
  - destruct (infos w !! draw_key (random_calls w)); [| eauto].
    apply IH.
    by replace (random_calls (bump w) + n)%nat
      with (random_calls w + S n)%nat by (simpl; lia).
Qed.

(** ** The methods, call by call *)

Lemma add_run fuel u w :
  add fuel u w =
  match splitUrl u (Some https_regex) with
  | inl e => Some (Throw e, w)
  | inr c =>
      if decide (base c = this_base this) then
        Some (Throw (makeError DOMAIN
                       ("url " +:+ u +:+ " has same base " +:+ this_base this
                        +:+ " as shortener")), w)
      else
        match found_in w c with
        | Some d =>
            Some (Return (scheme c +:+ "://" +:+ shortUrl d),
                  if isActive d then w
                  else with_infos (updateOne (shortUrl d) (set_isActive true)
                                     (infos w)) w)
        | None =>
            match new_shortKey fuel c w with
            | None => None
            | Some (Throw e, w1) => Some (Throw e, w1)
            | Some (Return sk, w1) =>
                match insertOne sk (new_info (key_of c) sk) (infos w1) with
                | Throw e => Some (Throw e, w1)
                | Return m' =>
                    match insertOne (key_of c) sk (urls w1) with
                    | Throw e => Some (Throw e, with_infos m' w1)
                    | Return u' =>
                        Some (Return (scheme c +:+ "://" +:+ sk),
                              with_urls u' (with_infos m' w1))
                    end
                end
            end
        end
  end.
Proof.
  unfold add. destruct (splitUrl u (Some https_regex)) as [e|c]; [done |].
  destruct (decide (base c = this_base this)); [done |].
  unfold mbind, M_bind, bind. rewrite _lookupInfo_run.
  destruct (found_in w c) as [d|].
  - unfold mret, M_ret, ret, _setActiveStatus, modify.
    by destruct (isActive d).
  - destruct (new_shortKey fuel c w) as [[[sk|e] w1]|]; [| done | done].
    unfold gets, lift, modify, mret, M_ret, ret, new_info, key_of.
    cbn [infos urls with_infos isActive shortUrl].
    destruct (insertOne sk _ (infos w1)) as [m'|e]; [| done].
    by destruct (insertOne (base c +:+ rest c) sk (urls w1)) as [u'|e].
Qed.

Lemma query_run u w :
  query u w =
  match query_start u with
  | Throw e => Some (Throw e, w)
  | Return c => query_resume u c (found_in w c) w
  end.
Proof.
  unfold query, mbind, M_bind, bind, lift.
  destruct (query_start u) as [c|e]; [| done]. by rewrite _lookupInfo_run.
Qed.

Lemma query_resume_run u c found w :
  query_resume u c found w =
  match found with
  | Some d =>
      if isActive d then
        Some (Return (scheme c +:+ "://" +:+ longUrl d),
              with_infos (updateOne (shortUrl d)
                            (set_count (Number_add1 (count d)))
                            (infos w)) w)
      else Some (Throw (makeError NOT_FOUND (u +:+ " not found")), w)
  | None => Some (Throw (makeError NOT_FOUND (u +:+ " not found")), w)
  end.
Proof. destruct found as [d|]; [| done]. simpl. by destruct (isActive d). Qed.

Lemma info_run u w :
  info u w =
  match splitUrl u (Some https_regex) with
  | inl e => Some (Throw e, w)
  | inr c =>
      match found_in w c with
      | None => Some (Throw (makeError NOT_FOUND (u +:+ " not found")), w)
      | Some d => Some (Return d, w)
      end
  end.
Proof.
  unfold info. destruct (splitUrl u (Some https_regex)) as [e|c]; [done |].
  unfold mbind, M_bind, bind. rewrite _lookupInfo_run.
  by destruct (found_in w c).
Qed.

Lemma deactivate_run u w :
  deactivate u w =
  match splitUrl u (Some https_regex) with
  | inl e => Some (Throw e, w)
  | inr c =>
      match found_in w c with
      | None => Some (Throw (makeError NOT_FOUND (u +:+ " not found")), w)
      | Some d =>
          Some (Return tt,
                if isActive d then
                  with_infos (updateOne (shortUrl d) (set_isActive false)
                                (infos w)) w
                else w)
      end
  end.
Proof.
  unfold deactivate. destruct (splitUrl u (Some https_regex)) as [e|c]; [done |].
  unfold mbind, M_bind, bind. rewrite _lookupInfo_run.
  destruct (found_in w c) as [d|]; [| done]. by destruct (isActive d).
Qed.

(** ** The invariant *)

Lemma store_wf_empty : store_wf empty_world.
Proof. split; simpl; intros ??; by rewrite lookup_empty. Qed.

(** In a well-formed store a record that is found is stored under its
    own [shortUrl]. *)
Lemma found_in_stored w c d :
  store_wf w -> found_in w c = Some d -> infos w !! shortUrl d = Some d.
Proof.
  intros [_ H2]. unfold found_in.
  destruct (decide (base c = this_base this)).
  - intros H. by destruct (H2 _ _ H) as (-> & _).
  - destruct (urls w !! key_of c) as [sk|]; [| done].
    intros H. by destruct (H2 _ _ H) as (-> & _).
Qed.

Lemma found_in_long w c :
  base c <> this_base this ->
  found_in w c =
  match urls w !! key_of c with
  | None => None
  | Some sk => infos w !! sk
  end.
Proof. intros H. unfold found_in. by rewrite decide_False. Qed.

Lemma found_in_short w c :
  base c = this_base this -> found_in w c = infos w !! key_of c.
Proof. intros H. unfold found_in. by rewrite decide_True. Qed.

(** A long URL that is not found has no entry in the long index. *)
Lemma not_found_no_entry w c :
  store_wf w -> base c <> this_base this -> found_in w c = None ->
  urls w !! key_of c = None.
Proof.
  intros [H1 _] Hb. rewrite (found_in_long _ _ Hb).
  destruct (urls w !! key_of c) as [sk|] eqn:Hu; [| done].
  destruct (H1 _ _ Hu) as (d & -> & _). done.
Qed.

Lemma transition_wf w w' : store_wf w -> transition w w' -> store_wf w'.
Proof.
  intros [H1 H2] Ht. destruct Ht as [w | w f sk Hf | w lk i rc Hi Hl].
  - by split.
  - unfold updateOne. split; simpl.
    + intros k sk0 Hk. destruct (H1 _ _ Hk) as (d & Hd & Hlong).
      rewrite lookup_alter. case_decide as Hsk.
      * subst sk0. rewrite Hd. exists (f d). split; [done |].
        by rewrite (proj1 (Hf d)).
      * eauto.
    + intros sk0 d Hd. apply lookup_alter_Some in Hd
        as [(-> & d0 & Hd0 & ->) | (_ & Hd0)].
      * destruct (Hf d0) as [-> ->]. by apply H2.
      * by apply H2.
  - split; simpl.
    + intros k sk0 Hk. apply lookup_insert_Some in Hk
        as [(<- & <-) | (Hne & Hk)].
      * exists (new_info lk (draw_key i)). by rewrite lookup_insert_eq.
      * destruct (H1 _ _ Hk) as (d & Hd & Hlong). exists d. split; [| done].
        rewrite lookup_insert_ne; [done |]. intros <-. congruence.
    + intros sk0 d Hd. apply lookup_insert_Some in Hd
        as [(<- & <-) | (Hne & Hd)].
      * simpl. rewrite lookup_insert_eq. auto using draw_key_minted.
      * destruct (H2 _ _ Hd) as (Hs & Hu & Hm). repeat split; [done | | done].
        rewrite lookup_insert_ne; [done |]. intros Heq. congruence.
Qed.

(** Entries of the long index stay, with the short key they have. *)
Lemma transition_urls w w' k sk :
  transition w w' -> urls w !! k = Some sk -> urls w' !! k = Some sk.
Proof.
  intros Ht Hk. destruct Ht as [w | w f sk0 Hf | w lk i rc Hi Hl]; simpl;
    [done | done |].
  rewrite lookup_insert_ne; [done |]. intros <-. congruence.
Qed.

(** Records stay, with the long URL and the short key they have. *)
Lemma transition_infos w w' sk d :
  transition w w' -> infos w !! sk = Some d ->
  exists d', infos w' !! sk = Some d' /\
    longUrl d' = longUrl d /\ shortUrl d' = shortUrl d.
Proof.
  intros Ht Hd. destruct Ht as [w | w f sk0 Hf | w lk i rc Hi Hl]; simpl.
  - eauto.
  - unfold updateOne. rewrite lookup_alter. case_decide as Hsk.
    + subst sk0. rewrite Hd. exists (f d). split; [done |]. apply Hf.
    + eauto.
  - rewrite lookup_insert_ne; [eauto |]. intros <-. congruence.
Qed.

Lemma set_isActive_fields b d :
  longUrl (set_isActive b d) = longUrl d /\
  shortUrl (set_isActive b d) = shortUrl d.
Proof. done. Qed.

Lemma set_count_fields n d :
  longUrl (set_count n d) = longUrl d /\ shortUrl (set_count n d) = shortUrl d.
Proof. done. Qed.

Lemma add_transition fuel u w out w' :
  store_wf w -> add fuel u w = Some (out, w') -> transition w w'.
Proof.
  intros Hwf. rewrite add_run.
  destruct (splitUrl u (Some https_regex)) as [e|c].
  { intros [= <- <-]. constructor. }
  destruct (decide (base c = this_base this)) as [|Hb].
  { intros [= <- <-]. constructor. }
  destruct (found_in w c) as [d|] eqn:Hf.
  { intros [= <- <-]. destruct (isActive d); constructor.
    apply set_isActive_fields. }
  destruct (new_shortKey fuel c w) as [[out1 w1]|] eqn:Hn; [| done].
  destruct (new_shortKey_spec _ _ _ _ _ Hn) as (i & -> & Hi & Hm & Hu & Hr).
  unfold insertOne. rewrite Hm, Hu, Hi, (not_found_no_entry _ _ Hwf Hb Hf).
  intros [= <- <-]. unfold with_urls, with_infos. simpl.
  apply transition_create; [done |]. by apply not_found_no_entry.
Qed.

Lemma query_transition u w out w' :
  query u w = Some (out, w') -> transition w w'.
Proof.
  rewrite query_run. destruct (query_start u) as [c|e].
  - rewrite query_resume_run. destruct (found_in w c) as [d|].
    + destruct (isActive d); intros [= <- <-]; constructor.
      apply set_count_fields.
    + intros [= <- <-]. constructor.
  - intros [= <- <-]. constructor.
Qed.

Lemma info_transition u w out w' :
  info u w = Some (out, w') -> w' = w.
Proof.
  rewrite info_run. destruct (splitUrl u (Some https_regex)) as [e|c].
  - by intros [= <- <-].
  - by destruct (found_in w c); intros [= <- <-].
Qed.

Lemma deactivate_transition u w out w' :
  deactivate u w = Some (out, w') -> transition w w'.
Proof.
  rewrite deactivate_run. destruct (splitUrl u (Some https_regex)) as [e|c].
  - intros [= <- <-]. constructor.
  - destruct (found_in w c) as [d|]; intros [= <- <-]; [| constructor].
    destruct (isActive d); constructor. apply set_isActive_fields.
Qed.

Lemma bind_ret_inv {A B} (m : M A) (f : A -> B) w out w' :
  (m ≫= λ a, mret (f a)) w = Some (out, w') ->
  exists out0, m w = Some (out0, w') /\
    out = match out0 with Return a => Return (f a) | Throw e => Throw e end.
Proof.
  unfold mbind, M_bind, bind, mret, M_ret, ret.
  destruct (m w) as [[[a|e] w1]|]; intros [= <- <-]; eauto.
Qed.

Lemma handle_transition fuel req w out w' :
  store_wf w -> handle fuel req w = Some (out, w') -> transition w w'.
Proof.
  intros Hwf. destruct req as [u|u|u|u]; simpl; intros H;
    apply bind_ret_inv in H as (out0 & H & _).
  - eapply add_transition; eauto.
  - eapply query_transition; eauto.
  - apply info_transition in H as ->. constructor.
  - eapply deactivate_transition; eauto.
Qed.

Lemma steps_wf w es w' : store_wf w -> steps w es w' -> store_wf w'.
Proof.
  intros Hwf Hs. induction Hs as [|w fuel req out w1 es w2 Hh Hs IH]; [done |].
  eauto using transition_wf, handle_transition.
Qed.

Lemma steps_urls w es w' k sk :
  store_wf w -> steps w es w' ->
  urls w !! k = Some sk -> urls w' !! k = Some sk.
Proof.
  intros Hwf Hs. induction Hs as [|w fuel req out w1 es w2 Hh Hs IH]; [done |].
  intros Hk. pose proof (handle_transition _ _ _ _ _ Hwf Hh) as Ht.
  eauto using transition_wf, transition_urls.
Qed.

(** ** What [splitUrl] and [add] return *)

Lemma splitUrl_inr u re c :
  splitUrl u re = inr c ->
  exists s b r, url_match u = Some (s, b, r) /\
    truthy (isBaseError b) = None /\
    (forall f, re = Some f -> f s = true) /\
    c = {| scheme := toLowerCase s; base := toLowerCase b; rest := r |}.
Proof.
  unfold splitUrl. destruct (url_match u) as [[[s b] r]|]; [| done].
  destruct (truthy (isBaseError b)) eqn:Hb; [done |].
  destruct re as [f|].
  - destruct (f s) eqn:Hf; [| done]. intros [= <-].
    exists s, b, r. repeat split; [done |]. by intros ? [= <-].
  - intros [= <-]. exists s, b, r. by repeat split.
Qed.

Lemma splitUrl_https u s b r :
  url_match u = Some (s, b, r) -> truthy (isBaseError b) = None ->
  splitUrl u (Some https_regex) =
  if https_regex s then
    inr {| scheme := toLowerCase s; base := toLowerCase b; rest := r |}
  else inl (makeError URL_SYNTAX
              ("invalid scheme " +:+ dquote +:+ s +:+ dquote)).
Proof.
  intros Hm Hb. unfold splitUrl. rewrite Hm, Hb. by destruct (https_regex s).
Qed.

(** When [add] returns, the long index maps the key of its argument to
    the short key in the returned value, and the record under that short
    key is active. *)
Lemma add_return fuel u w v w1 :
  store_wf w -> add fuel u w = Some (Return v, w1) ->
  exists c d,
    splitUrl u (Some https_regex) = inr c /\
    base c <> this_base this /\
    urls w1 !! key_of c = Some (shortUrl d) /\
    infos w1 !! shortUrl d = Some d /\
    longUrl d = key_of c /\ isActive d = true /\
    v = scheme c +:+ "://" +:+ shortUrl d.
Proof.
  intros Hwf Hadd. pose proof (add_transition _ _ _ _ _ Hwf Hadd) as Ht.
  pose proof (transition_wf _ _ Hwf Ht) as Hwf1.
  rewrite add_run in Hadd.
  destruct (splitUrl u (Some https_regex)) as [e|c]; [done |].
  destruct (decide (base c = this_base this)) as [|Hb]; [done |].
  exists c. destruct (found_in w c) as [d|] eqn:Hf.
  - injection Hadd as <- <-.
    pose proof (found_in_stored _ _ _ Hwf Hf) as Hd.
    rewrite (found_in_long _ _ Hb) in Hf.
    destruct (urls w !! key_of c) as [sk|] eqn:Hu; [| done].
    destruct Hwf as [H1 H2].
    destruct (H1 _ _ Hu) as (d0 & Hd0 & Hlong).
    assert (d0 = d) as -> by congruence.
    destruct (H2 _ _ Hf) as (Hsk & _). subst sk.
    destruct (isActive d) eqn:Ha.
    + exists d. by repeat split.
    + exists (set_isActive true d). simpl. repeat split; try done.
      unfold updateOne. by rewrite lookup_alter_eq, Hd.
  - destruct (new_shortKey fuel c w) as [[out1 w0]|] eqn:Hn; [| done].
    destruct (new_shortKey_spec _ _ _ _ _ Hn) as (i & -> & Hi & Hm & Hu & Hr).
    unfold insertOne in Hadd.
    rewrite Hm, Hu, Hi, (not_found_no_entry _ _ Hwf Hb Hf) in Hadd.
    injection Hadd as <- <-. exists (new_info (key_of c) (draw_key i)).
    simpl. by rewrite !lookup_insert_eq.
Qed.

(** A returned short URL is a URL of this service: [query] parses it and
    looks its short key up. *)
Lemma query_start_short u c sk :
  well_configured -> splitUrl u (Some https_regex) = inr c -> minted sk ->
  query_start (scheme c +:+ "://" +:+ sk) =
  Return {| scheme := scheme c; base := this_base this;
            rest := String "/" (slice1 (snd (span not_slash sk))) |} /\
  this_base this +:+ String "/" (slice1 (snd (span not_slash sk))) = sk.
Proof.
  intros (Hv & Hne & Hns & Hlow) Hs (n & ->).
  destruct (splitUrl_inr _ _ _ Hs) as (s & b & r & Hm & _ & Hre & ->).
  destruct (url_match_groups _ _ _ _ Hm) as ((Hs1 & Hs2) & _).
  specialize (Hre _ eq_refl). cbn [scheme].
  assert (Hsp : span not_slash (this_base this +:+ "/" +:+ toString36 n)
                = (this_base this, String "/" (toString36 n))).
  { apply span_append; [done |]. right. eexists _, _. done. }
  rewrite Hsp. cbn [snd slice1]. split; [| done].
  unfold query_start.
  rewrite (splitUrl_https _ (toLowerCase s) (this_base this)
             (String "/" (toString36 n))); [| | done].
  - rewrite https_regex_lower, Hre, toLowerCase_idemp, Hlow. cbn [base].
    by rewrite decide_False by (intros Hx; by apply Hx).
  - apply url_match_build; auto using toLowerCase_nonempty, toLowerCase_word.
    + simpl. apply toString36_chars.
    + right. eauto.
Qed.

(** [add] returns once the random source draws a short key that is not
    in use. *)
Lemma add_total w u c :
  store_wf w -> splitUrl u (Some https_regex) = inr c ->
  base c <> this_base this -> fresh_draw_ahead w ->
  exists fuel v w1, add fuel u w = Some (Return v, w1).
Proof.
  intros Hwf Hs Hb [n Hn]. exists (S n).
  rewrite add_run, Hs, decide_False by done.
  destruct (found_in w c) as [d|] eqn:Hf; [eauto |].
  destruct (new_shortKey_total _ c _ Hn) as (sk & w0 & Hk). rewrite Hk.
  destruct (new_shortKey_spec _ _ _ _ _ Hk) as (i & [= ->] & Hi & Hm & Hu & _).
  unfold insertOne.
  rewrite Hm, Hu, Hi, (not_found_no_entry _ _ Hwf Hb Hf). eauto.
Qed.

Lemma add_found_active fuel u c d w :
  splitUrl u (Some https_regex) = inr c -> base c <> this_base this ->
  found_in w c = Some d -> isActive d = true ->
  add fuel u w = Some (Return (scheme c +:+ "://" +:+ shortUrl d), w).
Proof.
  intros Hs Hb Hf Ha. by rewrite add_run, Hs, decide_False, Hf, Ha by done.
Qed.

Lemma found_in_long_inv w c d :
  store_wf w -> base c <> this_base this -> found_in w c = Some d ->
  urls w !! key_of c = Some (shortUrl d) /\
  infos w !! shortUrl d = Some d /\ longUrl d = key_of c.
Proof.
  intros Hwf Hb Hf. pose proof (found_in_stored _ _ _ Hwf Hf) as Hd.
  rewrite (found_in_long _ _ Hb) in Hf.
  destruct (urls w !! key_of c) as [sk|] eqn:Hu; [| done].
  destruct Hwf as [H1 H2]. destruct (H1 _ _ Hu) as (d0 & Hd0 & Hlong).
  assert (d0 = d) as -> by congruence.
  destruct (H2 _ _ Hf) as (-> & _). done.
Qed.

Lemma updateOne_insert {V} k (f : V -> V) (m : gmap string V) d :
  m !! k = Some d -> updateOne k f m = <[k := f d]> m.
Proof.
  intros Hd. apply map_eq. intros j. unfold updateOne.
  rewrite lookup_alter, lookup_insert. case_decide; [| done]. by rewrite Hd.
Qed.

Lemma set_isActive_same d : set_isActive (isActive d) d = d.
Proof. by destruct d. Qed.

(** A scheme ends at the first character that is not a word character. *)
Lemma scheme_separator (s1 s2 x y : string) :
  all_chars is_word s1 = true -> all_chars is_word s2 = true ->
  s1 +:+ "://" +:+ x = s2 +:+ "://" +:+ y -> s1 = s2 /\ x = y.
Proof.
  intros H1 H2 Heq.
  assert (Hsp : span is_word (s1 +:+ "://" +:+ x) = span is_word (s2 +:+ "://" +:+ y))
    by (by rewrite Heq).
  rewrite !span_append in Hsp by (done || (right; eexists _, _; done)).
  by injection Hsp as -> ->.
Qed.

Lemma splitUrl_scheme_word u re c :
  splitUrl u re = inr c -> all_chars is_word (scheme c) = true.
Proof.
  intros Hs. destruct (splitUrl_inr _ _ _ Hs) as (s & b & r & Hm & _ & _ & ->).
  destruct (url_match_groups _ _ _ _ Hm) as ((_ & Hw) & _).
  by apply toLowerCase_word.
Qed.

Lemma handle_wf fuel req w out w' :
  store_wf w -> handle fuel req w = Some (out, w') -> store_wf w'.
Proof. eauto using transition_wf, handle_transition. Qed.

Lemma add_wf fuel u w out w' :
  store_wf w -> add fuel u w = Some (out, w') -> store_wf w'.
Proof. eauto using transition_wf, add_transition. Qed.

(** [clear] empties both collections; the store it leaves is well formed,
    but the short keys it forgets can be drawn again. *)
Lemma clear_run w :
  clear w = Some (Return tt, with_urls ∅ (with_infos ∅ w)).
Proof. reflexivity. Qed.

Lemma clear_wf w : store_wf (with_urls ∅ (with_infos ∅ w)).
Proof. split; simpl; intros ??; by rewrite lookup_empty. Qed.

(** ** Counting queries *)

Lemma query_start_base u c : query_start u = Return c -> base c = this_base this.
Proof.
  unfold query_start. destruct (splitUrl u (Some https_regex)) as [e|c0]; [done |].
  destruct (decide (this_base this <> base c0)) as [|Hb]; [done |].
  intros [= <-]. by destruct (decide (base c0 = this_base this)) as [|Hn];
    [| exfalso; apply Hb; congruence].
Qed.

(** When [query] returns, the record under the queried short key was
    active and has its [count] plus one as its [count]; nothing else has
    changed. *)
Lemma query_return u w v w' :
  store_wf w -> query u w = Some (Return v, w') ->
  exists c d,
    query_start u = Return c /\ infos w !! key_of c = Some d /\
    isActive d = true /\ v = scheme c +:+ "://" +:+ longUrl d /\
    w' = with_infos (<[key_of c := set_count (Number_add1 (count d)) d]>
                       (infos w)) w.
Proof.
  intros Hwf. rewrite query_run.
  destruct (query_start u) as [c|e] eqn:Hq; [| done].
  rewrite query_resume_run, (found_in_short _ _ (query_start_base _ _ Hq)).
  destruct (infos w !! key_of c) as [d|] eqn:Hd; [| done].
  destruct (isActive d) eqn:Ha; [| done]. intros [= <- <-].
  destruct (proj2 Hwf _ _ Hd) as (Hshort & _).
  exists c, d. rewrite Hshort, (updateOne_insert _ _ _ _ Hd). by repeat split.
Qed.

Lemma query_throw u w e w' : query u w = Some (Throw e, w') -> w' = w.
Proof.
  rewrite query_run. destruct (query_start u) as [c|e0]; [| by intros [= _ <-]].
  rewrite query_resume_run. destruct (found_in w c) as [d|]; [| by intros [= _ <-]].
  by destruct (isActive d); intros [= <-].
Qed.

(** [add], [info] and [deactivate] leave every [count] as it is. *)
Lemma transition_status_count w b k sk d :
  infos w !! sk = Some d ->
  exists d',
    infos (with_infos (updateOne k (set_isActive b) (infos w)) w) !! sk = Some d'
    /\ count d' = count d.
Proof.
  intros Hd. simpl. unfold updateOne. rewrite lookup_alter.
  case_decide; [subst k; rewrite Hd |]; eauto.
Qed.

Lemma add_count fuel u w out w' sk d :
  store_wf w -> add fuel u w = Some (out, w') -> infos w !! sk = Some d ->
  exists d', infos w' !! sk = Some d' /\ count d' = count d.
Proof.
  intros Hwf Hadd Hd. rewrite add_run in Hadd.
  destruct (splitUrl u (Some https_regex)) as [e|c];
    [injection Hadd as <- <-; eauto |].
  destruct (decide (base c = this_base this)) as [|Hb];
    [injection Hadd as <- <-; eauto |].
  destruct (found_in w c) as [d0|] eqn:Hf.
  - injection Hadd as <- <-.
    destruct (isActive d0); [eauto | by apply transition_status_count].
  - destruct (new_shortKey fuel c w) as [[out1 w1]|] eqn:Hn; [| done].
    destruct (new_shortKey_spec _ _ _ _ _ Hn) as (i & -> & Hi & Hm & Hu & Hr).
    unfold insertOne in Hadd.
    rewrite Hm, Hu, Hi, (not_found_no_entry _ _ Hwf Hb Hf) in Hadd.
    injection Hadd as <- <-. exists d. simpl.
    rewrite lookup_insert_ne; [done |]. intros <-. congruence.
Qed.

Lemma deactivate_count u w out w' sk d :
  deactivate u w = Some (out, w') -> infos w !! sk = Some d ->
  exists d', infos w' !! sk = Some d' /\ count d' = count d.
Proof.
  intros Hde Hd. rewrite deactivate_run in Hde.
  destruct (splitUrl u (Some https_regex)) as [e|c];
    [injection Hde as <- <-; eauto |].
  destruct (found_in w c) as [d0|]; injection Hde as <- <-; [| eauto].
  destruct (isActive d0); [by apply transition_status_count | eauto].
Qed.

Lemma handle_count fuel req w out w' sk d :
  store_wf w -> handle fuel req w = Some (out, w') -> infos w !! sk = Some d ->
  exists d', infos w' !! sk = Some d' /\
    count d' = N.iter (successful_queries sk [(req, out)]) Number_add1 (count d).
Proof.
  intros Hwf Hh Hd. destruct req as [u|u|u|u]; simpl in Hh;
    apply bind_ret_inv in Hh as (out0 & Hh & ->); cbn [successful_queries].
  - destruct (add_count _ _ _ _ _ _ _ Hwf Hh Hd) as (d' & ? & ?).
    by exists d'.
  - destruct out0 as [v|e].
    + destruct (query_return _ _ _ _ Hwf Hh) as (c & d0 & Hq & Hd0 & _ & _ & ->).
      unfold query_key. rewrite Hq. unfold key_of in *. simpl.
      case_decide as Hk.
      * injection Hk as <-. rewrite lookup_insert_eq.
        assert (d0 = d) as -> by congruence. by eexists.
      * rewrite lookup_insert_ne by congruence. by exists d.
    + apply query_throw in Hh as ->. by exists d.
  - apply info_transition in Hh as ->. by exists d.
  - destruct (deactivate_count _ _ _ _ _ _ Hh Hd) as (d' & ? & ?).
    by exists d'.
Qed.

Lemma successful_queries_cons sk e es :
  successful_queries sk (e :: es)
  = successful_queries sk [e] + successful_queries sk es.
Proof.
  destruct e as [[u|u|u|u] [r|err]]; cbn [successful_queries]; lia.
Qed.

Lemma steps_count w es w' sk d :
  store_wf w -> steps w es w' -> infos w !! sk = Some d ->
  exists d', infos w' !! sk = Some d' /\
    count d' = N.iter (successful_queries sk es) Number_add1 (count d).
Proof.
  intros Hwf Hs. revert d.
  induction Hs as [|w fuel req out w1 es w2 Hh Hs IH]; intros d Hd.
  - by exists d.
  - destruct (handle_count _ _ _ _ _ _ _ Hwf Hh Hd) as (d1 & Hd1 & Hc1).
    destruct (IH (handle_wf _ _ _ _ _ Hwf Hh) _ Hd1) as (d2 & Hd2 & Hc2).
    exists d2. split; [done |]. rewrite (successful_queries_cons _ (req, out)).
    by rewrite Number_add1_iter_add, <- Hc1.
Qed.

(** The pattern of the scheme filter. *)
Lemma https_regex_spec s :
  https_regex s = true <->
  toLowerCase s = "http" \/ toLowerCase s = "https".
Proof.
  destruct s as [|a [|b [|c [|d r]]]]; simpl;
    try (split; [discriminate | intros [H|H]; discriminate H]).
  unfold ci_match. rewrite !andb_true_iff, !bool_decide_eq_true. split.
  - intros ((((-> & ->) & ->) & ->) & Hr).
    destruct r as [|e [|f r]]; simpl; [by left | | discriminate].
    apply bool_decide_eq_true in Hr as ->. by right.
  - intros [H|H]; injection H as -> -> -> -> Hr;
      destruct r as [|e [|f r]]; try discriminate; repeat split.
    injection Hr as ->. by apply bool_decide_eq_true.

Qed.

(** ** The pattern on a URL that begins with a scheme *)


Lemma match_here_scheme s r :
  s <> EmptyString -> all_chars is_word s = true ->
  match_here (s +:+ "://" +:+ r) =
  match span not_slash r with
  | (EmptyString, _) => None
  | (b, t) => Some (s, b, fst (span not_line_terminator t))
  end.
Proof.
  intros Hne Hw. unfold match_here.
  rewrite (span_append is_word s); [| done | right; eexists _, _; done].
  destruct s as [|x s]; [done |]. simpl. by destruct (span not_slash r) as [[|y b] t].
Qed.



(** ** The claims *)

(** C1. For a valid long URL [u] whose base is not the service base,
    [add u] returns, and whenever it has returned a value [v], a second
    [add u] returns the same [v] and leaves the whole store, so also the
    record of [u] and its [count], as it is. The first call returns
    once the random source draws a short key that is not in use. *)
Theorem add_idempotent w u c :
  store_wf w ->
  splitUrl u (Some https_regex) = inr c ->
  base c <> this_base this ->
  fresh_draw_ahead w ->
  (exists fuel v w1, add fuel u w = Some (Return v, w1)) /\
  (forall fuel v w1, add fuel u w = Some (Return v, w1) ->
     (exists d, found_in w1 c = Some d /\
                v = scheme c +:+ "://" +:+ shortUrl d) /\
     forall fuel', add fuel' u w1 = Some (Return v, w1)).
Proof.
  intros Hwf Hs Hb Hfresh. split; [by eapply add_total |].
  intros fuel v w1 Hadd.
  destruct (add_return _ _ _ _ _ Hwf Hadd)
    as (c' & d & Hs' & _ & Hu & Hd & _ & Ha & ->).
  assert (c' = c) as -> by congruence.
  assert (Hf : found_in w1 c = Some d)
    by (by rewrite (found_in_long _ _ Hb), Hu).
  split; [eauto |]. intros fuel'. by apply add_found_active.
Qed.

(** C2. For a valid long URL [u] whose base is not the service base,
    with scheme [s], base [b] and rest [r], [add u] returns, and [query]
    of the value that [add u] returned gives the URL made of the scheme
    and the base of [u] in lower case and of the rest of [u] unchanged:
    a URL whose three components are these. *)
Theorem query_add_round_trip w u c :
  store_wf w ->
  well_configured ->
  splitUrl u (Some https_regex) = inr c ->
  base c <> this_base this ->
  fresh_draw_ahead w ->
  let long := scheme c +:+ "://" +:+ base c +:+ rest c in
  (exists s b r, url_match u = Some (s, b, r) /\
     c = {| scheme := toLowerCase s; base := toLowerCase b; rest := r |}) /\
  url_match long = Some (scheme c, base c, rest c) /\
  (exists fuel v w1, add fuel u w = Some (Return v, w1)) /\
  (forall fuel v w1, add fuel u w = Some (Return v, w1) ->
     exists w2, query v w1 = Some (Return long, w2)).
Proof.
  intros Hwf Hcfg Hs Hb Hfresh long.
  destruct (splitUrl_inr _ _ _ Hs) as (s & b & r & Hm & _ & _ & Hc).
  destruct (url_match_groups _ _ _ _ Hm)
    as ((Hs1 & Hs2) & (Hb1 & Hb2) & (Hr1 & Hr2)).
  split; [eauto |]. split.
  { subst c long. cbn [scheme base rest].
    apply url_match_build;
      auto using toLowerCase_nonempty, toLowerCase_word, toLowerCase_not_slash. }
  split; [by eapply add_total |].
  intros fuel v w1 Hadd.
  pose proof (add_wf _ _ _ _ _ Hwf Hadd) as Hwf1.
  destruct (add_return _ _ _ _ _ Hwf Hadd)
    as (c' & d & Hs' & _ & Hu & Hd & Hlong & Ha & ->).
  assert (c' = c) as -> by congruence.
  destruct (proj2 Hwf1 _ _ Hd) as (_ & _ & Hmint).
  destruct (query_start_short _ _ _ Hcfg Hs Hmint) as [Hq Hkey].
  rewrite query_run, Hq, query_resume_run.
  rewrite found_in_short by done. unfold key_of. cbn [base rest scheme].
  rewrite Hkey, Hd, Ha, Hlong. unfold long, key_of. eauto.
Qed.

(** C3, as the code has it. Two long URLs with different long-URL keys
    (the base in lower case
    followed by the rest, under which a long URL is stored), added to
    the same service with any requests served in between, get different
    short keys and different returned short URLs. After the second [add]
    the long index holds one entry for each of the two keys, each short key
    holds the record of its own long URL, and no short key is shared by
    two entries of the long index. *)
Theorem distinct_long_urls_distinct_short_urls
    w f1 u1 v1 w1 es w2 f2 u2 v2 w3 c1 c2 :
  store_wf w ->
  add f1 u1 w = Some (Return v1, w1) ->
  steps w1 es w2 ->
  add f2 u2 w2 = Some (Return v2, w3) ->
  splitUrl u1 (Some https_regex) = inr c1 ->
  splitUrl u2 (Some https_regex) = inr c2 ->
  key_of c1 <> key_of c2 ->
  (exists sk1 sk2 d1 d2,
     v1 = scheme c1 +:+ "://" +:+ sk1 /\ v2 = scheme c2 +:+ "://" +:+ sk2 /\
     sk1 <> sk2 /\
     urls w3 !! key_of c1 = Some sk1 /\ urls w3 !! key_of c2 = Some sk2 /\
     infos w3 !! sk1 = Some d1 /\ longUrl d1 = key_of c1 /\
     infos w3 !! sk2 = Some d2 /\ longUrl d2 = key_of c2) /\
  v1 <> v2 /\
  (forall k k' sk,
     urls w3 !! k = Some sk -> urls w3 !! k' = Some sk -> k = k').
Proof.
  intros Hwf Ha1 Hsteps Ha2 Hs1 Hs2 Hne.
  pose proof (add_wf _ _ _ _ _ Hwf Ha1) as Hwf1.
  pose proof (steps_wf _ _ _ Hwf1 Hsteps) as Hwf2.
  pose proof (add_transition _ _ _ _ _ Hwf2 Ha2) as Ht2.
  pose proof (transition_wf _ _ Hwf2 Ht2) as Hwf3.
  destruct (add_return _ _ _ _ _ Hwf Ha1)
    as (c1' & d1 & Hs1' & _ & Hu1 & _ & _ & _ & ->).
  assert (c1' = c1) as -> by congruence.
  destruct (add_return _ _ _ _ _ Hwf2 Ha2)
    as (c2' & d2 & Hs2' & _ & Hu2 & Hd2 & Hl2 & _ & ->).
  assert (c2' = c2) as -> by congruence.
  pose proof (transition_urls _ _ _ _ Ht2 (steps_urls _ _ _ _ _ Hwf1 Hsteps Hu1))
    as Hu13.
  destruct (proj1 Hwf3 _ _ Hu13) as (d13 & Hd13 & Hl13).
  assert (Hsk : shortUrl d1 <> shortUrl d2).
  { intros Heq. rewrite Heq in Hd13. congruence. }
  split; [exists (shortUrl d1), (shortUrl d2), d13, d2; by repeat split |].
  split.
  - intros Heq. apply scheme_separator in Heq as [_ Heq];
      eauto using splitUrl_scheme_word.
  - intros k k' sk Hk Hk'.
    destruct (proj1 Hwf3 _ _ Hk) as (d & Hd & <-).
    destruct (proj1 Hwf3 _ _ Hk') as (d' & Hd' & <-). congruence.
Qed.

(** C4. Once [add u] has returned [v], and whatever requests were served
    since, [deactivate u] succeeds; after it [query v] throws [NOT_FOUND],
    and [info u] returns the record that [u] had before the deactivation
    with [isActive] set to false. *)
Theorem deactivate_hides fuel w u v w1 es w2 :
  store_wf w ->
  well_configured ->
  add fuel u w = Some (Return v, w1) ->
  steps w1 es w2 ->
  exists c d w3,
    splitUrl u (Some https_regex) = inr c /\
    found_in w2 c = Some d /\
    longUrl d = key_of c /\ v = scheme c +:+ "://" +:+ shortUrl d /\
    deactivate u w2 = Some (Return tt, w3) /\
    query v w3 = Some (Throw (makeError NOT_FOUND (v +:+ " not found")), w3) /\
    info u w3 = Some (Return (set_isActive false d), w3).
Proof.
  intros Hwf Hcfg Hadd Hsteps.
  pose proof (add_wf _ _ _ _ _ Hwf Hadd) as Hwf1.
  pose proof (steps_wf _ _ _ Hwf1 Hsteps) as Hwf2.
  destruct (add_return _ _ _ _ _ Hwf Hadd)
    as (c & d1 & Hs & Hb & Hu1 & _ & _ & _ & ->).
  pose proof (steps_urls _ _ _ _ _ Hwf1 Hsteps Hu1) as Hu2.
  destruct (proj1 Hwf2 _ _ Hu2) as (d & Hd & Hlong).
  destruct (proj2 Hwf2 _ _ Hd) as (Hshort & _ & Hmint).
  assert (Hf : found_in w2 c = Some d)
    by (by rewrite (found_in_long _ _ Hb), Hu2).
  set (w3 := if isActive d
             then with_infos (updateOne (shortUrl d) (set_isActive false)
                                (infos w2)) w2
             else w2).
  assert (Hd3 : infos w3 !! shortUrl d1 = Some (set_isActive false d)).
  { subst w3. destruct (isActive d) eqn:Ha; simpl.
    - unfold updateOne. by rewrite Hshort, lookup_alter_eq, Hd.
    - by rewrite <- Ha, set_isActive_same. }
  assert (Hu3 : urls w3 = urls w2) by (subst w3; by destruct (isActive d)).
  exists c, d, w3. rewrite Hshort. repeat split; try done.
  - by rewrite deactivate_run, Hs, Hf.
  - destruct (query_start_short _ _ _ Hcfg Hs Hmint) as [Hq Hkey].
    rewrite query_run, Hq, query_resume_run, found_in_short by done.
    unfold key_of. cbn [base rest]. by rewrite Hkey, Hd3.
  - by rewrite info_run, Hs, (found_in_long _ _ Hb), Hu3, Hu2, Hd3.
Qed.

(** C5. [add u] on a long URL whose mapping is deactivated returns the
    short URL of that mapping and sets [isActive] of its record to true;
    the [longUrl], the [shortUrl] and the [count] of the record, every
    other record and the long index are as before. *)
Theorem add_reactivates fuel w u c d :
  store_wf w ->
  splitUrl u (Some https_regex) = inr c ->
  base c <> this_base this ->
  found_in w c = Some d ->
  isActive d = false ->
  exists d' w',
    add fuel u w = Some (Return (scheme c +:+ "://" +:+ shortUrl d), w') /\
    found_in w' c = Some d' /\
    isActive d' = true /\
    longUrl d' = longUrl d /\ shortUrl d' = shortUrl d /\ count d' = count d /\
    infos w' = <[shortUrl d := d']> (infos w) /\
    urls w' = urls w.
Proof.
  intros Hwf Hs Hb Hf Ha.
  destruct (found_in_long_inv _ _ _ Hwf Hb Hf) as (Hu & Hd & _).
  exists (set_isActive true d),
    (with_infos (updateOne (shortUrl d) (set_isActive true) (infos w)) w).
  rewrite add_run, Hs, decide_False, Hf, Ha by done.
  rewrite (found_in_long _ _ Hb). simpl. rewrite Hu.
  rewrite (updateOne_insert _ _ _ _ Hd), lookup_insert_eq. by repeat split.
Qed.

(** C6, as the code has it. In a well-formed store, a [query] that
    returns replaces the [count] of the record under the queried short key
    by that [count] plus one, a sum of doubles, and changes nothing else in
    the store: below 2^53 this adds one. Over any run of requests, the
    [count] of a record grows by the number of queries of its short key
    that returned, whatever other requests the run serves, as long as the
    sum does not exceed 2^53. *)
Theorem query_increments_count w :
  store_wf w ->
  (forall u v w', query u w = Some (Return v, w') ->
     exists sk d,
       query_key u = Some sk /\ infos w !! sk = Some d /\
       infos w' = <[sk := set_count (Number_add1 (count d)) d]> (infos w) /\
       urls w' = urls w /\
       (count d < 2 ^ 53 ->
        infos w' = <[sk := set_count (count d + 1) d]> (infos w))) /\
  (forall es w' sk d, steps w es w' -> infos w !! sk = Some d ->
     count d + successful_queries sk es <= 2 ^ 53 ->
     exists d', infos w' !! sk = Some d' /\
       count d' = count d + successful_queries sk es).
Proof.
  intros Hwf. split.
  - intros u v w' Hq.
    destruct (query_return _ _ _ _ Hwf Hq) as (c & d & Hs & Hd & _ & _ & ->).
    exists (key_of c), d. unfold query_key. rewrite Hs.
    repeat split; try done. intros Hc. cbn [infos with_infos].
    by rewrite Number_add1_exact.
  - intros es w' sk d Hs Hd Hc.
    destruct (steps_count _ _ _ _ _ Hwf Hs Hd) as (d' & Hd' & Hn).
    exists d'. split; [done |]. by rewrite Hn, Number_add1_iter_exact.
Qed.

(** C7, as the code has it. [info] applies the scheme filter of [add] and
    [query]: for an input in which the pattern finds a scheme [s], a valid
    authority [b] and a rest [r], [info] throws [URL_SYNTAX] when [s] is
    not [http] or [https] in any case of letters; when it is, [info]
    returns the record found for the long or short form and throws
    [NOT_FOUND] when there is none. *)
Theorem info_scheme_filter w url s b r :
  url_match url = Some (s, b, r) ->
  truthy (isBaseError b) = None ->
  (https_regex s = true <->
   toLowerCase s = "http" \/ toLowerCase s = "https") /\
  info url w =
  if https_regex s then
    match found_in w {| scheme := toLowerCase s; base := toLowerCase b;
                        rest := r |} with
    | Some d => Some (Return d, w)
    | None => Some (Throw (makeError NOT_FOUND (url +:+ " not found")), w)
    end
  else
    Some (Throw (makeError URL_SYNTAX
                   ("invalid scheme " +:+ dquote +:+ s +:+ dquote)), w).
Proof.
  intros Hm Hb. split; [apply https_regex_spec |].
  rewrite info_run, (splitUrl_https _ _ _ _ Hm Hb).
  destruct (https_regex s); [| done]. by destruct (found_in w _).
Qed.


(** C9, against the code. [query] reads the record and then sets its
    [count] to the count it has read plus one: of two calls on an active
    record that both read before either writes, both return, and the
    [count] grows by one; served in turn they make it grow by two. The
    sums are sums of doubles, exact while the count is below 2^53. *)
Theorem query_lost_update w u c d :
  store_wf w ->
  query_start u = Return c ->
  found_in w c = Some d ->
  isActive d = true ->
  let v := scheme c +:+ "://" +:+ longUrl d in
  query_interleaved u u w =
    Some (Return (v, v),
          with_infos (<[shortUrl d := set_count (Number_add1 (count d)) d]>
                        (infos w)) w)
  /\
  query_in_turn u u w =
    Some (Return (v, v),
          with_infos
            (<[shortUrl d := set_count (Number_add1 (Number_add1 (count d))) d]>
               (infos w)) w)
  /\
  (count d + 1 < 2 ^ 53 ->
   Number_add1 (count d) = count d + 1 /\
   Number_add1 (Number_add1 (count d)) = count d + 1 + 1).
Proof.
  intros Hwf Hq Hf Ha v.
  pose proof (found_in_stored _ _ _ Hwf Hf) as Hd.
  pose proof (query_start_base _ _ Hq) as Hb.
  assert (Hkey : key_of c = shortUrl d).
  { rewrite (found_in_short _ _ Hb) in Hf.
    by destruct (proj2 Hwf _ _ Hf) as (-> & _). }
  split; [| split].
  - unfold query_interleaved, mbind, M_bind, bind, lift. rewrite Hq.
    rewrite !_lookupInfo_run, Hf, query_resume_run, Ha.
    rewrite query_resume_run, Ha.
    unfold mret, M_ret, ret, with_infos. cbn [infos urls random_calls].
    rewrite (updateOne_insert _ _ _ _ Hd).
    rewrite (updateOne_insert _ _ _ (set_count (Number_add1 (count d)) d))
      by apply lookup_insert_eq.
    by rewrite insert_insert_eq.
  - unfold query_in_turn, mbind, M_bind, bind.
    rewrite query_run, Hq, query_resume_run, Hf, Ha.
    rewrite query_run, Hq, query_resume_run, (found_in_short _ _ Hb), Hkey.
    unfold mret, M_ret, ret, with_infos. cbn [infos urls random_calls].
    rewrite (updateOne_insert _ _ _ _ Hd), lookup_insert_eq.
    cbn [isActive set_count count shortUrl longUrl]. rewrite Ha.
    rewrite (updateOne_insert _ _ _ (set_count (Number_add1 (count d)) d))
      by apply lookup_insert_eq.
    by rewrite insert_insert_eq.
  - intros Hc. rewrite (Number_add1_exact (count d)) by lia.
    by rewrite Number_add1_exact by lia.
Qed.


(** * Further properties of the code *)

(** ** The pattern of [splitUrl]: what a match is *)

Lemma match_here_sound u s b r :
  match_here u = Some (s, b, r) ->
  exists post,
    u = s +:+ "://" +:+ b +:+ r +:+ post /\
    (post = EmptyString \/
     exists c post', post = String c post' /\ not_line_terminator c = false).
Proof.
  unfold match_here. intros H.
  destruct (span is_word u) as [s0 t] eqn:Hs.
  destruct (span_spec _ _ _ _ Hs) as (-> & _ & _).
  destruct s0 as [|x s0]; [discriminate |].
  destruct t as [|c1 t]; [discriminate |].
  destruct c1 as [[] [] [] [] [] [] [] []]; try discriminate.
  destruct t as [|c2 t]; [discriminate |].
  destruct c2 as [[] [] [] [] [] [] [] []]; try discriminate.
  destruct t as [|c3 t]; [discriminate |].
  destruct c3 as [[] [] [] [] [] [] [] []]; try discriminate.
  destruct (span not_slash t) as [b0 t'] eqn:Hb.
  destruct (span_spec _ _ _ _ Hb) as (-> & _ & _).
  destruct b0 as [|y b0]; [discriminate |].
  destruct (span not_line_terminator t') as [r0 post] eqn:Hr.
  destruct (span_spec _ _ _ _ Hr) as (-> & _ & Hpost).
  simpl in H. injection H as <- <- <-. by exists post.
Qed.

Lemma match_here_complete s c t :
  s <> EmptyString -> all_chars is_word s = true -> not_slash c = true ->
  is_Some (match_here (s +:+ "://" +:+ String c t)).
Proof.
  intros Hne Hw Hc. rewrite match_here_scheme by done.
  cbn [span]. rewrite Hc. by destruct (span not_slash t).
Qed.

Lemma url_match_complete pre s c t :
  s <> EmptyString -> all_chars is_word s = true -> not_slash c = true ->
  is_Some (url_match (pre +:+ s +:+ "://" +:+ String c t)).
Proof.
  intros Hne Hw Hc. induction pre as [|x pre IH].
  - change (EmptyString +:+ s +:+ "://" +:+ String c t)
      with (s +:+ "://" +:+ String c t).
    destruct (match_here_complete s c t Hne Hw Hc) as [m Hm].
    destruct s as [|y s]; [done |].
    change (String y s +:+ "://" +:+ String c t)
      with (String y (s +:+ "://" +:+ String c t)) in *.
    rewrite url_match_cons, Hm. eauto.
  - change (String x pre +:+ s +:+ "://" +:+ String c t)
      with (String x (pre +:+ s +:+ "://" +:+ String c t)).
    rewrite url_match_cons. by destruct (match_here _).
Qed.

Lemma url_match_decompose u s b r :
  url_match u = Some (s, b, r) ->
  exists pre post,
    u = pre +:+ s +:+ "://" +:+ b +:+ r +:+ post /\
    (post = EmptyString \/
     exists x post', post = String x post' /\ not_line_terminator x = false) /\
    (forall pre1 pre2, pre = pre1 +:+ pre2 -> pre2 <> EmptyString ->
       match_here (pre2 +:+ s +:+ "://" +:+ b +:+ r +:+ post) = None).
Proof.
  intros Hm. induction u as [|x u IH]; [discriminate |].
  rewrite url_match_cons in Hm.
  destruct (match_here (String x u)) as [m|] eqn:Hh.
  - injection Hm as ->.
    destruct (match_here_sound _ _ _ _ Hh) as (post & Heq & Hpost).
    exists EmptyString, post. split; [done |]. split; [done |].
    intros pre1 pre2 Hp. by destruct pre1, pre2.
  - destruct (IH Hm) as (pre & post & -> & Hpost & Hleft).
    exists (String x pre), post. split; [done |]. split; [done |].
    intros pre1 pre2 Hp Hne. destruct pre1 as [|y pre1].
    + simpl in Hp. subst pre2. exact Hh.
    + simpl in Hp. injection Hp as -> ->. by apply (Hleft pre1 pre2).
Qed.

(** X1. The components that [splitUrl] returns are cut out of its argument:
    the argument is some text, then the scheme, [://], the base, the rest,
    and what is left of the argument after the first line; the scheme and
    the base come back in lower case and the rest as it is. The match is
    the leftmost one: the pattern matches at no earlier position. *)
Theorem splitUrl_sound u re c :
  splitUrl u re = inr c ->
  exists pre s b post,
    u = pre +:+ s +:+ "://" +:+ b +:+ rest c +:+ post /\
    scheme c = toLowerCase s /\ base c = toLowerCase b /\
    (s <> EmptyString /\ all_chars is_word s = true) /\
    (b <> EmptyString /\ all_chars not_slash b = true) /\
    (all_chars not_line_terminator (rest c) = true /\
     (rest c = EmptyString \/ exists r', rest c = String "/" r')) /\
    (post = EmptyString \/
     exists x post', post = String x post' /\ not_line_terminator x = false) /\
    (forall pre1 pre2, pre = pre1 +:+ pre2 -> pre2 <> EmptyString ->
       match_here (pre2 +:+ s +:+ "://" +:+ b +:+ rest c +:+ post) = None).
Proof.
  intros Hs. destruct (splitUrl_inr _ _ _ Hs) as (s & b & r & Hm & _ & _ & ->).
  cbn [scheme base rest].
  pose proof (url_match_groups _ _ _ _ Hm) as (Hgs & Hgb & Hgr).
  destruct (url_match_decompose _ _ _ _ Hm) as (pre & post & -> & Hpost & Hleft).
  exists pre, s, b, post. destruct Hgs, Hgb, Hgr. by repeat split.
Qed.

(** The pattern finds nothing when the argument has no word character
    followed by [://] and a character other than [/]. *)
Lemma url_match_none u :
  (~ exists pre s c t,
       u = pre +:+ s +:+ "://" +:+ String c t /\
       s <> EmptyString /\ all_chars is_word s = true /\ not_slash c = true) ->
  url_match u = None.
Proof.
  intros Hno. destruct (url_match u) as [[[s b] r]|] eqn:Hm; [| done].
  exfalso. apply Hno.
  pose proof (url_match_groups _ _ _ _ Hm) as ((Hs1 & Hs2) & (Hb1 & Hb2) & _).
  assert (exists pre post, u = pre +:+ s +:+ "://" +:+ b +:+ post)
    as (pre & post & ->).
  { clear Hno Hs1 Hs2 Hb1 Hb2. induction u as [|x u IH]; [discriminate |].
    rewrite url_match_cons in Hm.
    destruct (match_here (String x u)) as [m|] eqn:Hh.
    - injection Hm as ->.
      destruct (match_here_sound _ _ _ _ Hh) as (post & Heq & _).
      exists EmptyString, (r +:+ post). by rewrite Heq.
    - destruct (IH Hm) as (pre & post & ->). by exists (String x pre), post. }
  destruct b as [|y b]; [done |]. simpl in Hb2.
  apply andb_prop in Hb2 as [Hy _].
  exists pre, s, y, (b +:+ post). by repeat split.
Qed.

(** X2. [splitUrl] reports a bad URL exactly when its argument has no
    word character run followed by [://] and a character other than [/]:
    with such a substring the pattern matches, without one [splitUrl]
    returns the error [URL_SYNTAX] that quotes the argument. *)
Theorem splitUrl_bad_url u re :
  (url_match u = None <->
   ~ exists pre s c t,
       u = pre +:+ s +:+ "://" +:+ String c t /\
       s <> EmptyString /\ all_chars is_word s = true /\ not_slash c = true) /\
  (url_match u = None ->
   splitUrl u re = inl (makeError URL_SYNTAX ("bad URL " +:+ u))).
Proof.
  split; [| by intros H; unfold splitUrl; rewrite H].
  split.
  - intros Hn (pre & s & c & t & -> & Hne & Hw & Hc).
    destruct (url_match_complete pre s c t Hne Hw Hc) as [m Hm]. congruence.
  - apply url_match_none.
Qed.

(** X3. The key under which a URL is stored determines its base and its
    rest: the base has no [/] and the rest is empty or begins with [/],
    so two URLs share a key only when they have the same base, in lower
    case, and the same rest. *)
Theorem key_of_injective u1 re1 c1 u2 re2 c2 :
  splitUrl u1 re1 = inr c1 ->
  splitUrl u2 re2 = inr c2 ->
  key_of c1 = key_of c2 ->
  base c1 = base c2 /\ rest c1 = rest c2.
Proof.
  intros H1 H2 Hk.
  assert (Hsp : forall u re c, splitUrl u re = inr c ->
                  span not_slash (key_of c) = (base c, rest c)).
  { intros u re c Hs.
    destruct (splitUrl_inr _ _ _ Hs) as (s & b & r & Hm & _ & _ & ->).
    destruct (url_match_groups _ _ _ _ Hm) as (_ & (_ & Hb) & (_ & Hr)).
    unfold key_of. cbn [base rest].
    apply span_append; [by apply toLowerCase_not_slash |].
    destruct Hr as [-> | (r' & ->)]; [by left |]. right. by eexists _, _. }
  pose proof (Hsp _ _ _ H1) as E1. pose proof (Hsp _ _ _ H2) as E2.
  rewrite Hk, E2 in E1. by injection E1 as -> ->.
Qed.

(** ** The key generator *)

Lemma below_36 (P : N -> Prop) :
  (forall n : nat, (n < 36)%nat -> P (N.of_nat n)) -> forall d, d < 36 -> P d.
Proof. intros H d Hd. rewrite <- (N2Nat.id d). apply H. lia. Qed.

Lemma digit36_spec d :
  d < 36 ->
  is_digit36 (digit36 d) = true /\ digit_value (digit36 d) = d.
Proof.
  revert d. apply below_36. intros n Hn.
  do 36 (destruct n as [|n]; [by vm_compute |]). lia.
Qed.

Lemma from36_toString36_aux fuel n acc :
  n < 36 ^ N.of_nat fuel ->
  from36_go 0 (toString36_aux fuel n acc) = from36_go n acc.
Proof.
  revert n acc. induction fuel as [|fuel IH]; intros n acc Hn.
  - simpl in *. by replace n with 0 by lia.
  - rewrite Nat2N.inj_succ, N.pow_succ_r' in Hn. cbn [toString36_aux].
    assert (Hd : n mod 36 < 36) by (by apply N.mod_lt).
    destruct (digit36_spec _ Hd) as [_ Hv].
    pose proof (N.div_mod n 36 ltac:(done)) as Hdm.
    destruct (n / 36 =? 0) eqn:Hq.
    + apply N.eqb_eq in Hq. cbn [from36_go]. rewrite Hv. f_equal. lia.
    + rewrite IH by (apply N.Div0.div_lt_upper_bound; lia).
      cbn [from36_go]. rewrite Hv. f_equal. lia.
Qed.

Lemma toString36_fuel n : n < 36 ^ N.of_nat (S (N.to_nat (N.log2 n))).
Proof.
  rewrite Nat2N.inj_succ, N2Nat.id.
  apply N.lt_le_trans with (2 ^ N.succ (N.log2 n)).
  - destruct n as [|p]; [done |]. apply N.log2_spec. lia.
  - apply N.pow_le_mono_l. lia.
Qed.

Lemma toString36_aux_digits fuel n acc :
  all_chars is_digit36 acc = true ->
  all_chars is_digit36 (toString36_aux fuel n acc) = true.
Proof.
  revert n acc. induction fuel as [|fuel IH]; simpl; intros n acc H; [done |].
  assert (Hd : n mod 36 < 36) by (by apply N.mod_lt).
  destruct (digit36_spec _ Hd) as [Hdig _].
  destruct (n / 36 =? 0); [| apply IH]; simpl; by rewrite Hdig.
Qed.

Lemma toString36_aux_length_ge fuel n acc :
  (String.length acc <= String.length (toString36_aux fuel n acc))%nat.
Proof.
  revert n acc. induction fuel as [|fuel IH]; simpl; intros n acc; [lia |].
  destruct (n / 36 =? 0); [simpl; lia |].
  etrans; [| apply IH]. simpl. lia.
Qed.

Lemma toString36_aux_length_le fuel n acc k :
  (1 <= k)%nat -> n < 36 ^ N.of_nat k ->
  (String.length (toString36_aux fuel n acc) <= String.length acc + k)%nat.
Proof.
  revert n acc k. induction fuel as [|fuel IH]; simpl; intros n acc k Hk Hn;
    [lia |].
  destruct (n / 36 =? 0) eqn:Hq; [simpl; lia |].
  apply N.eqb_neq in Hq.
  destruct k as [|[|k]]; [lia | |].
  - exfalso. apply Hq. apply N.div_small. simpl in Hn. lia.
  - rewrite Nat2N.inj_succ, N.pow_succ_r' in Hn.
    etrans; [apply (IH _ _ (S k)); [lia |] |]; [| simpl; lia].
    apply N.Div0.div_lt_upper_bound; lia.
Qed.

(** X4. A token is the number it was made from, written in base 36 with
    the digits [0-9a-z]: reading the token back gives the number, so two
    different numbers never give the same token, and the short keys made of
    them under one base differ. *)
Theorem toString36_round_trip n :
  from36 (toString36 n) = n /\
  all_chars is_digit36 (toString36 n) = true /\
  (forall m, toString36 m = toString36 n -> m = n) /\
  (forall m, this_base this +:+ "/" +:+ toString36 m
             = this_base this +:+ "/" +:+ toString36 n -> m = n).
Proof.
  assert (Hrt : forall k, from36 (toString36 k) = k).
  { intros k. unfold from36, toString36.
    by rewrite from36_toString36_aux by apply toString36_fuel. }
  assert (Hinj : forall m, toString36 m = toString36 n -> m = n).
  { intros m Hm. by rewrite <- (Hrt m), Hm, Hrt. }
  repeat split; [apply Hrt | by apply toString36_aux_digits | done |].
  intros m Hm. apply Hinj.
  apply (inj (String.append (this_base this))) in Hm. by injection Hm.
Qed.

Lemma drawn_bound i :
  (0 <= Math_random i)%Q -> (Math_random i < 1)%Q -> drawn i < MAX_RAND.
Proof.
  intros H0 H1. unfold drawn.
  set (x := (inject_Z (Z.of_N MAX_RAND) * Math_random i)%Q).
  assert (Hx : (x < inject_Z (Z.of_N MAX_RAND))%Q).
  { unfold x. rewrite <- (Qmult_1_r (inject_Z (Z.of_N MAX_RAND))) at 2.
    apply Qmult_lt_l; [done | done]. }
  assert (Hf : (Qfloor x < Z.of_N MAX_RAND)%Z).
  { rewrite Zlt_Qlt. eapply Qle_lt_trans; [apply Qfloor_le | done]. }
  assert (Hpos : 0 < MAX_RAND) by done.
  clearbody x. generalize dependent MAX_RAND. intros. lia.
Qed.

(** X5. When [Math.random] returns a number in [0, 1), the integer that
    [_shorten] renders is below [MAX_RAND], its token has from one to seven
    digits [0-9a-z], and the short key is the base, [/] and that token. *)
Theorem token_bounds i :
  (0 <= Math_random i)%Q -> (Math_random i < 1)%Q ->
  drawn i < MAX_RAND /\
  draw_key i = this_base this +:+ "/" +:+ toString36 (drawn i) /\
  (1 <= String.length (toString36 (drawn i)) <= 7)%nat /\
  all_chars is_digit36 (toString36 (drawn i)) = true.
Proof.
  intros H0 H1. pose proof (drawn_bound i H0 H1) as Hb.
  split; [done |]. split; [done |]. split; [| by apply toString36_aux_digits].
  unfold toString36. split.
  - cbn [toString36_aux]. destruct (_ =? 0); [simpl; lia |].
    etrans; [| apply toString36_aux_length_ge]. simpl. lia.
  - apply (toString36_aux_length_le _ _ EmptyString 7); [lia |].
    eapply N.lt_trans; [exact Hb | by vm_compute].
Qed.

(** ** The retry loop *)




(** ** The four methods: errors, repeated calls, the two forms of a URL *)

Lemma splitUrl_inl_code u re e : splitUrl u re = inl e -> code e = URL_SYNTAX.
Proof.
  unfold splitUrl. destruct (url_match u) as [[[s b] r]|]; [| by intros [= <-]].
  destruct (truthy (isBaseError b)); [by intros [= <-] |].
  by destruct (match re with Some f => negb (f s) | None => false end);
    intros [= <-].
Qed.

Lemma query_start_inv u c :
  query_start u = Return c ->
  splitUrl u (Some https_regex) = inr c /\ base c = this_base this.
Proof.
  intros Hq. split; [| by eapply query_start_base].
  unfold query_start in Hq.
  destruct (splitUrl u (Some https_regex)) as [e|c0]; [done |].
  destruct (decide (this_base this <> base c0)); [done |]. by injection Hq as ->.
Qed.

Lemma query_start_throw u e :
  query_start u = Throw e -> code e = URL_SYNTAX \/ code e = DOMAIN.
Proof.
  unfold query_start.
  destruct (splitUrl u (Some https_regex)) as [e0|c] eqn:Hs.
  - intros [= <-]. left. by eapply splitUrl_inl_code.
  - destruct (decide (this_base this <> base c)); [| done].
    intros [= <-]. by right.
Qed.

(** A record that is found, updated in place under its own short key, is
    found updated. *)
Lemma found_in_update w c d f :
  store_wf w -> found_in w c = Some d ->
  found_in (with_infos (updateOne (shortUrl d) f (infos w)) w) c = Some (f d).
Proof.
  intros Hwf Hf. pose proof (found_in_stored _ _ _ Hwf Hf) as Hd.
  unfold found_in in *. cbn [infos urls with_infos]. unfold updateOne.
  destruct (decide (base c = this_base this)).
  - destruct (proj2 Hwf _ _ Hf) as (Hsh & _).
    by rewrite <- Hsh, lookup_alter_eq, Hd.
  - destruct (urls w !! key_of c) as [sk|]; [| done].
    destruct (proj2 Hwf _ _ Hf) as (Hsh & _).
    by rewrite <- Hsh, lookup_alter_eq, Hd.
Qed.

Lemma add_throw fuel u w e w' :
  store_wf w -> add fuel u w = Some (Throw e, w') ->
  w' = w /\ (code e = URL_SYNTAX \/ code e = DOMAIN).
Proof.
  intros Hwf Hh. rewrite add_run in Hh.
  destruct (splitUrl u (Some https_regex)) as [e1|c] eqn:Hs.
  { injection Hh as <- <-. split; [done |]. left. by eapply splitUrl_inl_code. }
  destruct (decide (base c = this_base this)) as [|Hb].
  { injection Hh as <- <-. split; [done |]. by right. }
  destruct (found_in w c) as [d|] eqn:Hf; [done |].
  destruct (new_shortKey fuel c w) as [[out1 w1]|] eqn:Hn; [| done].
  destruct (new_shortKey_spec _ _ _ _ _ Hn) as (i & -> & Hi & Hm & Hu & _).
  unfold insertOne in Hh.
  by rewrite Hm, Hu, Hi, (not_found_no_entry _ _ Hwf Hb Hf) in Hh.
Qed.

Lemma query_throw_code u w e w' :
  query u w = Some (Throw e, w') ->
  w' = w /\ (code e = URL_SYNTAX \/ code e = DOMAIN \/ code e = NOT_FOUND).
Proof.
  intros Hh. split; [by eapply query_throw |]. rewrite query_run in Hh.
  destruct (query_start u) as [c|e1] eqn:Hq.
  - rewrite query_resume_run in Hh. right. right.
    destruct (found_in w c) as [d|]; [| by injection Hh as <- _].
    destruct (isActive d); [done | by injection Hh as <- _].
  - injection Hh as <- _. destruct (query_start_throw _ _ Hq); auto.
Qed.

Lemma info_throw u w e w' :
  info u w = Some (Throw e, w') ->
  w' = w /\ (code e = URL_SYNTAX \/ code e = NOT_FOUND).
Proof.
  intros Hh. split; [by eapply info_transition |]. rewrite info_run in Hh.
  destruct (splitUrl u (Some https_regex)) as [e1|c] eqn:Hs.
  - injection Hh as <- _. left. by eapply splitUrl_inl_code.
  - destruct (found_in w c); [done |]. injection Hh as <- _. by right.
Qed.

Lemma deactivate_throw u w e w' :
  deactivate u w = Some (Throw e, w') ->
  w' = w /\ (code e = URL_SYNTAX \/ code e = NOT_FOUND).
Proof.
  intros Hh. rewrite deactivate_run in Hh.
  destruct (splitUrl u (Some https_regex)) as [e1|c] eqn:Hs.
  - injection Hh as <- <-. split; [done |]. left. by eapply splitUrl_inl_code.
  - destruct (found_in w c); [done |]. injection Hh as <- <-.
    split; [done |]. by right.
Qed.

(** X7. In a well-formed store a request that fails leaves the store as
    it is, and fails with one of the codes of its method: [URL_SYNTAX] or
    [DOMAIN] for [add], these or [NOT_FOUND] for [query], [URL_SYNTAX] or
    [NOT_FOUND] for [info] and [deactivate]; the driver's duplicate-key
    error never comes out of [add]. *)
Theorem failed_request_leaves_store fuel req w e w' :
  store_wf w ->
  handle fuel req w = Some (Throw e, w') ->
  w' = w /\
  match req with
  | Add _ => code e = URL_SYNTAX \/ code e = DOMAIN
  | Query _ => code e = URL_SYNTAX \/ code e = DOMAIN \/ code e = NOT_FOUND
  | GetInfo _ | Deactivate _ => code e = URL_SYNTAX \/ code e = NOT_FOUND
  end.
Proof.
  intros Hwf Hh. destruct req as [u|u|u|u]; simpl in Hh;
    apply bind_ret_inv in Hh as (out0 & Hh & Hout);
    destruct out0 as [a|e0]; try discriminate; injection Hout as ->.
  - by eapply add_throw.
  - by eapply query_throw_code.
  - by eapply info_throw.
  - by eapply deactivate_throw.
Qed.

(** X8. [add] and [query] accept disjoint sets of URLs: a URL that [add]
    has accepted is refused by [query] with [DOMAIN] in every store, and
    the short URL that [add] has returned is refused by [add] with
    [DOMAIN] in every store, so the service never shortens its own short
    URLs. *)
Theorem add_query_disjoint fuel u w v w1 :
  store_wf w ->
  well_configured ->
  add fuel u w = Some (Return v, w1) ->
  (forall w', exists msg,
     query u w' = Some (Throw (makeError DOMAIN msg), w')) /\
  (forall fuel' w', exists msg,
     add fuel' v w' = Some (Throw (makeError DOMAIN msg), w')).
Proof.
  intros Hwf Hcfg Hadd. pose proof (add_wf _ _ _ _ _ Hwf Hadd) as Hwf1.
  destruct (add_return _ _ _ _ _ Hwf Hadd)
    as (c & d & Hs & Hb & _ & Hd & _ & _ & ->).
  split.
  - intros w'. rewrite query_run. unfold query_start. rewrite Hs.
    rewrite decide_True by congruence. eauto.
  - intros fuel' w'. destruct (proj2 Hwf1 _ _ Hd) as (_ & _ & Hmint).
    destruct (query_start_short _ _ _ Hcfg Hs Hmint) as [Hq _].
    destruct (query_start_inv _ _ Hq) as [Hs' Hb'].
    rewrite add_run, Hs', decide_True by done. eauto.
Qed.

(** X9. [deactivate] is idempotent: once it has returned, the mapping is
    inactive, and a second [deactivate] of the same URL returns without
    error and leaves the store as it is. *)
Theorem deactivate_idempotent u w w1 :
  store_wf w ->
  deactivate u w = Some (Return tt, w1) ->
  (exists c d, splitUrl u (Some https_regex) = inr c /\
     found_in w1 c = Some d /\ isActive d = false) /\
  deactivate u w1 = Some (Return tt, w1).
Proof.
  intros Hwf. rewrite !deactivate_run.
  destruct (splitUrl u (Some https_regex)) as [e|c]; [done |].
  destruct (found_in w c) as [d|] eqn:Hf; [| done].
  intros [= <-].
  assert (Hf1 : found_in (if isActive d
                          then with_infos (updateOne (shortUrl d)
                                             (set_isActive false) (infos w)) w
                          else w) c = Some (set_isActive false d)).
  { destruct (isActive d) eqn:Ha; [by apply found_in_update |].
    by rewrite <- Ha, set_isActive_same. }
  rewrite Hf1. split; [by exists c, (set_isActive false d) | done].
Qed.

(** X10. A mapping is reached by either form of its URL: once [add u] has
    returned the short URL [v], and whatever requests were served since,
    [info v] returns the record that [info u] returns, and [deactivate v]
    does what [deactivate u] does. *)
Theorem short_form_same_record fuel u w v w1 es w2 :
  store_wf w ->
  well_configured ->
  add fuel u w = Some (Return v, w1) ->
  steps w1 es w2 ->
  (exists d, info u w2 = Some (Return d, w2) /\
             info v w2 = Some (Return d, w2)) /\
  deactivate v w2 = deactivate u w2.
Proof.
  intros Hwf Hcfg Hadd Hsteps. pose proof (add_wf _ _ _ _ _ Hwf Hadd) as Hwf1.
  pose proof (steps_wf _ _ _ Hwf1 Hsteps) as Hwf2.
  destruct (add_return _ _ _ _ _ Hwf Hadd)
    as (c & d1 & Hs & Hb & Hu1 & _ & _ & _ & ->).
  pose proof (steps_urls _ _ _ _ _ Hwf1 Hsteps Hu1) as Hu2.
  destruct (proj1 Hwf2 _ _ Hu2) as (d & Hd & _).
  destruct (proj2 Hwf2 _ _ Hd) as (_ & _ & Hmint).
  destruct (query_start_short _ _ _ Hcfg Hs Hmint) as [Hq Hkey].
  destruct (query_start_inv _ _ Hq) as [Hs' Hb'].
  assert (Hf : found_in w2 c = Some d)
    by (by rewrite (found_in_long _ _ Hb), Hu2).
  assert (Hf' : found_in w2 {| scheme := scheme c; base := this_base this;
                  rest := String "/" (slice1 (snd (span not_slash (shortUrl d1)))) |}
                = Some d).
  { rewrite found_in_short by done. unfold key_of. cbn [base rest].
    by rewrite Hkey. }
  split.
  - exists d. by rewrite !info_run, Hs, Hs', Hf, Hf'.
  - by rewrite !deactivate_run, Hs, Hs', Hf, Hf'.
Qed.


(** X12. [clear] forgets every mapping: after it the collections are
    empty, and [query], [info] and [deactivate] fail for every URL and
    leave the store empty. *)
Theorem clear_forgets w :
  exists w0,
    clear w = Some (Return tt, w0) /\
    infos w0 = ∅ /\ urls w0 = ∅ /\ store_wf w0 /\
    forall u,
      (exists e, query u w0 = Some (Throw e, w0)) /\
      (exists e, info u w0 = Some (Throw e, w0)) /\
      (exists e, deactivate u w0 = Some (Throw e, w0)).
Proof.
  exists (with_urls ∅ (with_infos ∅ w)).
  split; [done |]. split; [done |]. split; [done |]. split; [apply clear_wf |].
  assert (Hnone : forall c, found_in (with_urls ∅ (with_infos ∅ w)) c = None).
  { intros c. unfold found_in. simpl. rewrite !lookup_empty.
    by destruct (decide _). }
  intros u. repeat split.
  - rewrite query_run. destruct (query_start u) as [c|e]; [| eauto].
    rewrite query_resume_run, Hnone. eauto.
  - rewrite info_run. destruct (splitUrl u _) as [e|c]; [eauto |].
    rewrite Hnone. eauto.
  - rewrite deactivate_run. destruct (splitUrl u _) as [e|c]; [eauto |].
    rewrite Hnone. eauto.
Qed.

Lemma steps_infos w es w' sk d :
  store_wf w -> steps w es w' -> infos w !! sk = Some d ->
  exists d', infos w' !! sk = Some d' /\
    longUrl d' = longUrl d /\ shortUrl d' = shortUrl d.
Proof.
  intros Hwf Hs. revert d.
  induction Hs as [|w fuel req out w1 es w2 Hh Hs IH]; intros d Hd; [eauto |].
  pose proof (handle_transition _ _ _ _ _ Hwf Hh) as Ht.
  destruct (transition_infos _ _ _ _ Ht Hd) as (d1 & Hd1 & <- & <-).
  eauto using transition_wf.
Qed.

(** X13. No request deletes or renames a record: over any run of the
    four methods a record stays under its short key with the same
    [longUrl] and [shortUrl], its [count] never goes down, and its entry
    in the long index stays. *)
Theorem records_persist w es w' sk d :
  store_wf w ->
  steps w es w' ->
  infos w !! sk = Some d ->
  exists d',
    infos w' !! sk = Some d' /\
    longUrl d' = longUrl d /\ shortUrl d' = shortUrl d /\
    count d <= count d' /\
    urls w' !! longUrl d = Some sk.
Proof.
  intros Hwf Hs Hd.
  destruct (steps_infos _ _ _ _ _ Hwf Hs Hd) as (d1 & Hd1 & Hl & Hsh).
  destruct (steps_count _ _ _ _ _ Hwf Hs Hd) as (d2 & Hd2 & Hc).
  assert (d2 = d1) as -> by congruence.
  exists d1. repeat split; try done; [rewrite Hc; apply Number_add1_iter_ge |].
  eapply steps_urls; eauto. by destruct (proj2 Hwf _ _ Hd) as (_ & ? & _).
Qed.

(** X14. Every store that a run of the four methods reaches from the
    empty store is well formed, and in it the long index and the records
    correspond one to one: a long key leads to a short key exactly when
    the record under that short key has that long URL. *)
Theorem reachable_store_wf es w :
  steps empty_world es w ->
  store_wf w /\
  (forall k sk,
     urls w !! k = Some sk <->
     exists d, infos w !! sk = Some d /\ longUrl d = k) /\
  (forall sk d, infos w !! sk = Some d -> shortUrl d = sk /\ minted sk).
Proof.
  intros Hs. pose proof (steps_wf _ _ _ store_wf_empty Hs) as Hwf.
  split; [done |]. split.
  - intros k sk. split; [apply Hwf |].
    intros (d & Hd & <-). by destruct (proj2 Hwf _ _ Hd) as (_ & ? & _).
  - intros sk d Hd. by destruct (proj2 Hwf _ _ Hd) as (? & _ & ?).
Qed.

(** ** The handlers of the web service *)

Lemma lower_char_word_inv c : is_word (lower_char c) = true -> is_word c = true.
Proof. destruct c as [[] [] [] [] [] [] [] []]; vm_compute; done. Qed.

Lemma lower_char_not_slash_inv c :
  not_slash (lower_char c) = true -> not_slash c = true.
Proof. destruct c as [[] [] [] [] [] [] [] []]; vm_compute; done. Qed.

Lemma toLowerCase_not_slash_inv s :
  all_chars not_slash (toLowerCase s) = true -> all_chars not_slash s = true.
Proof.
  induction s as [|x s IH]; simpl; [done |]. intros H.
  apply andb_prop in H as [Hx H].
  by rewrite (lower_char_not_slash_inv _ Hx), IH.
Qed.

Lemma ci_match_word p c :
  is_word p = true -> ci_match p c = true -> is_word c = true.
Proof.
  unfold ci_match. intros Hp Hc. apply bool_decide_eq_true in Hc.
  apply lower_char_word_inv. by rewrite Hc.
Qed.

Lemma https_regex_word s :
  https_regex s = true -> s <> EmptyString /\ all_chars is_word s = true.
Proof.
  destruct s as [|a [|b [|c [|d r]]]]; try discriminate. simpl.
  rewrite !andb_true_iff. intros ((((Ha & Hb) & Hc) & Hd) & Hr).
  split; [done |].
  rewrite (ci_match_word "h" _ eq_refl Ha), (ci_match_word "t" _ eq_refl Hb),
    (ci_match_word "t" _ eq_refl Hc), (ci_match_word "p" _ eq_refl Hd).
  destruct r as [|e [|f r]]; [done | | done].
  simpl. by rewrite (ci_match_word "s" _ eq_refl Hr).
Qed.

Lemma catch_return {A} (m : M A) h w a w' :
  m w = Some (Return a, w') -> catch m h w = Some (Return a, w').
Proof. unfold catch. by intros ->. Qed.

Lemma catch_throw {A} (m : M A) h w e w' :
  m w = Some (Throw e, w') -> catch m h w = h e w'.
Proof. unfold catch. by intros ->. Qed.

(** A handler answers what its inner [try] and [catch] answer: no error
    reaches [doErrors]. *)
Lemma handler_run {A} (m : M A) (ok : A -> Response) (ko : Error -> Response) w :
  errorWrap (catch (m ≫= λ a, mret (ok a)) (fun err => mret (ko err))) w =
  match m w with
  | Some (Return a, w') => Some (Return (ok a), w')
  | Some (Throw e, w') => Some (Return (ko e), w')
  | None => None
  end.
Proof.
  unfold errorWrap, catch, mbind, M_bind, bind, mret, M_ret, ret.
  by destruct (m w) as [[[a|e] w']|].
Qed.

Lemma with_url_run {A} (method : string -> M A) url w :
  with_url method url w =
  match url with
  | QString s => method s w
  | _ => Some (Throw (makeError TYPE_ERROR (TypeError_message url)), w)
  end.
Proof. by destruct url. Qed.

(** X15. What the four handlers answer in a well-formed store. Each
    answers the success of its method, or an error and the store left as
    it is: [add_url] with status 400, the three others with status 404,
    also when the error is [URL_SYNTAX] or [DOMAIN]. The error has the code
    of the method's error when [req.query.url] is a string; when it is not,
    the method throws a [TypeError], and the error that the handler answers
    has no code. No handler answers 409 or 500. [deactivate_url],
    [get_info] and [load_url] always answer, and [add_url] answers when
    [add] returns or throws. *)
Theorem handlers_answers fuel req w r w' :
  store_wf w ->
  (add_url fuel req w = Some (r, w') ->
   (exists u v, query_url req = QString u /\
                r = Return (SendJson CREATED (JValue v)) /\
                add fuel u w = Some (Return v, w')) \/
   (exists c m, r = Return (SendJson BAD_REQUEST (JError BAD_REQUEST c m)) /\
                w' = w /\ codes_for (query_url req) [URL_SYNTAX; DOMAIN] c)) /\
  (deactivate_url req w = Some (r, w') ->
   (exists u, query_url req = QString u /\ r = Return (SendStatus OK) /\
              deactivate u w = Some (Return tt, w')) \/
   (exists c m,
      r = Return (SendJson HTTP_NOT_FOUND (JError HTTP_NOT_FOUND c m)) /\
      w' = w /\ codes_for (query_url req) [URL_SYNTAX; NOT_FOUND] c)) /\
  (get_info req w = Some (r, w') ->
   w' = w /\
   ((exists u d, query_url req = QString u /\
                 r = Return (SendJson OK (JInfo d)) /\
                 info u w = Some (Return d, w)) \/
    (exists c m,
       r = Return (SendJson HTTP_NOT_FOUND (JError HTTP_NOT_FOUND c m)) /\
       codes_for (query_url req) [URL_SYNTAX; NOT_FOUND] c))) /\
  (load_url req w = Some (r, w') ->
   (exists v, r = Return (RedirectTo v) /\
              query (requestUrl req) w = Some (Return v, w')) \/
   (exists c m,
      r = Return (SendJson HTTP_NOT_FOUND (JError HTTP_NOT_FOUND c m)) /\
      w' = w /\ (c = URL_SYNTAX \/ c = DOMAIN \/ c = NOT_FOUND))) /\
  (is_Some (deactivate_url req w) /\ is_Some (get_info req w) /\
   is_Some (load_url req w) /\
   (is_Some (add_url fuel req w) <->
    forall u, query_url req = QString u -> is_Some (add fuel u w))).
Proof.
  intros Hwf. split; [| split; [| split; [| split]]].
  - unfold add_url. rewrite handler_run, with_url_run.
    destruct (query_url req) as [u| | |]; cbn [codes_for];
      try (intros [= <- <-]; right; by eexists _, _).
    destruct (add fuel u w) as [[[v|e] w1]|] eqn:Ha; [| | done];
      intros [= <- <-]; [left; eauto |].
    destruct (add_throw _ _ _ _ _ Hwf Ha) as [-> Hc]. right.
    exists (code e), (message e). rewrite !elem_of_cons.
    split; [done |]. split; [done |]. destruct Hc; auto.
  - unfold deactivate_url. rewrite handler_run, with_url_run.
    destruct (query_url req) as [u| | |]; cbn [codes_for];
      try (intros [= <- <-]; right; by eexists _, _).
    destruct (deactivate u w) as [[[[]|e] w1]|] eqn:Ha;
      [| | done]; intros [= <- <-]; [left; eauto |].
    destruct (deactivate_throw _ _ _ _ Ha) as [-> Hc]. right.
    exists (code e), (message e). rewrite !elem_of_cons.
    split; [done |]. split; [done |]. destruct Hc; auto.
  - unfold get_info. rewrite handler_run, with_url_run.
    destruct (query_url req) as [u| | |]; cbn [codes_for];
      try (intros [= <- <-]; split; [done |]; right; by eexists _, _).
    destruct (info u w) as [[[d|e] w1]|] eqn:Ha; [| | done];
      intros [= <- <-].
    + pose proof (info_transition _ _ _ _ Ha) as ->. split; [done |].
      left. eauto.
    + destruct (info_throw _ _ _ _ Ha) as [-> Hc]. split; [done |]. right.
      exists (code e), (message e). rewrite !elem_of_cons.
      split; [done |]. destruct Hc; auto.
  - unfold load_url. rewrite handler_run.
    destruct (query (requestUrl req) w) as [[[v|e] w1]|] eqn:Ha; [| | done];
      intros [= <- <-]; [left; eauto |].
    destruct (query_throw_code _ _ _ _ Ha) as [-> Hc]. right.
    exists (code e), (message e). eauto.
  - split; [| split; [| split]].
    + unfold deactivate_url. rewrite handler_run, with_url_run.
      destruct (query_url req) as [u| | |]; try by eexists.
      rewrite deactivate_run.
      destruct (splitUrl _ _) as [e|c]; [by eexists |].
      destruct (found_in w c); by eexists.
    + unfold get_info. rewrite handler_run, with_url_run.
      destruct (query_url req) as [u| | |]; try by eexists.
      rewrite info_run.
      destruct (splitUrl _ _) as [e|c]; [by eexists |].
      destruct (found_in w c); by eexists.
    + unfold load_url. rewrite handler_run, query_run.
      destruct (query_start _) as [c|e]; [| by eexists].
      rewrite query_resume_run.
      destruct (found_in w c) as [d|]; [| by eexists].
      destruct (isActive d); by eexists.
    + unfold add_url. rewrite handler_run, with_url_run.
      destruct (query_url req) as [u| | |];
        try (split; [intros _ ? [=] | by eexists]).
      destruct (add fuel u w) as [[[v|e] w1]|] eqn:Ha; split.
      * intros _ ? [= <-]. rewrite Ha. by eexists.
      * by eexists.
      * intros _ ? [= <-]. rewrite Ha. by eexists.
      * by eexists.
      * intros [x Hx]. discriminate.
      * intros Hu. destruct (Hu u eq_refl) as [x Hx]. congruence.
Qed.

(** The URL that [load_url] rebuilds from a request is split into the
    protocol, the service base and the path. *)
Lemma requestUrl_start req r :
  well_configured ->
  https_regex (protocol req) = true ->
  truthy (isBaseError (hostname req +:+ ":" +:+ Number_toString port)) = None ->
  toLowerCase (hostname req +:+ ":" +:+ Number_toString port)
  = this_base this ->
  originalUrl req = String "/" r ->
  all_chars not_line_terminator r = true ->
  query_start (requestUrl req) =
  Return {| scheme := toLowerCase (protocol req); base := this_base this;
            rest := originalUrl req |}.
Proof.
  intros (_ & Hne & Hns & _) Hp Hv Hlow Hpath Hr.
  destruct (https_regex_word _ Hp) as [Hp1 Hp2].
  set (b := hostname req +:+ ":" +:+ Number_toString port) in *.
  assert (Hb1 : b <> EmptyString) by (intros E; rewrite E in Hlow; by subst).
  assert (Hb2 : all_chars not_slash b = true).
  { apply toLowerCase_not_slash_inv. by rewrite Hlow. }
  assert (Hm : url_match (requestUrl req)
               = Some (protocol req, b, originalUrl req)).
  { unfold requestUrl. fold b.
    replace (protocol req +:+ "://" +:+ hostname req +:+ ":" +:+
             Number_toString port +:+ originalUrl req)
      with (protocol req +:+ "://" +:+ b +:+ originalUrl req)
      by (unfold b; by rewrite !append_assoc).
    apply url_match_build; try done.
    - rewrite Hpath. simpl. done.
    - right. eauto. }
  unfold query_start. rewrite (splitUrl_https _ _ _ _ Hm Hv), Hp, Hlow.
  cbn [base]. by rewrite decide_False by (intros Hx; by apply Hx).
Qed.

(** X16. [load_url] resolves the record stored under the service base
    followed by the path of the request. For a request under [http] or
    [https] whose host and port make the service base, with a path that
    begins with [/], it redirects to the long URL of that record under the
    protocol of the request and stores its [count] plus one, a sum of
    doubles, as its [count] when the record is there and active, and
    answers 404 with [NOT_FOUND] otherwise, leaving the store as it is. *)
Theorem load_url_resolves req r w :
  store_wf w ->
  well_configured ->
  https_regex (protocol req) = true ->
  truthy (isBaseError (hostname req +:+ ":" +:+ Number_toString port)) = None ->
  toLowerCase (hostname req +:+ ":" +:+ Number_toString port)
  = this_base this ->
  originalUrl req = String "/" r ->
  all_chars not_line_terminator r = true ->
  let sk := this_base this +:+ originalUrl req in
  load_url req w =
  match infos w !! sk with
  | Some d =>
      if isActive d then
        Some (Return (RedirectTo (toLowerCase (protocol req) +:+ "://"
                                  +:+ longUrl d)),
              with_infos (<[sk := set_count (Number_add1 (count d)) d]>
                            (infos w)) w)
      else
        Some (Return (SendJson HTTP_NOT_FOUND
                        (JError HTTP_NOT_FOUND NOT_FOUND
                           (requestUrl req +:+ " not found"))), w)
  | None =>
      Some (Return (SendJson HTTP_NOT_FOUND
                      (JError HTTP_NOT_FOUND NOT_FOUND
                         (requestUrl req +:+ " not found"))), w)
  end.
Proof.
  intros Hwf Hcfg Hp Hv Hlow Hpath Hr sk.
  pose proof (requestUrl_start _ _ Hcfg Hp Hv Hlow Hpath Hr) as Hq.
  unfold load_url. rewrite handler_run, query_run, Hq, query_resume_run.
  rewrite found_in_short by done. unfold key_of. cbn [base rest scheme].
  fold sk. destruct (infos w !! sk) as [d|] eqn:Hd; [| done].
  destruct (isActive d); [| done].
  destruct (proj2 Hwf _ _ Hd) as (-> & _).
  by rewrite (updateOne_insert _ _ _ _ Hd).
Qed.

(** ** [update_file] *)

Lemma after_scheme_colon s m t :
  after_scheme s = Some (m, t) -> exists s', s = String ":" s'.
Proof.
  destruct s as [|c s]; [done |].
  destruct c as [[] [] [] [] [] [] [] []]; try done. eauto.
Qed.

(** A link has a colon. *)
Lemma link_here_colon s :
  all_chars (not_char 58) s = true -> link_here s = None.
Proof.
  intros Hs. destruct (link_here s) as [[m t]|] eqn:Hl; [| done]. exfalso.
  unfold link_here in Hl.
  destruct s as [|h [|t1 [|t2 [|p r]]]]; try done.
  destruct (_ && _); [| done].
  simpl in Hs. rewrite !andb_true_iff in Hs.
  destruct Hs as (_ & _ & _ & _ & Hr).
  assert (Hno : forall x, all_chars (not_char 58) x = true ->
                  after_scheme x = None).
  { intros x Hx. destruct (after_scheme x) as [[m' t']|] eqn:Ha; [| done].
    destruct (after_scheme_colon _ _ _ Ha) as (x' & ->). done. }
  rewrite (Hno _ Hr) in Hl. destruct r as [|c r']; [done |].
  simpl in Hr. apply andb_prop in Hr as [_ Hr'].
  rewrite (Hno _ Hr') in Hl. by destruct (ci_match "s" c).
Qed.

Lemma link_search_colon s i :
  all_chars (not_char 58) s = true -> link_search s i = None.
Proof.
  revert i. induction s as [|c s IH]; intros i Hs.
  - done.
  - cbn [link_search]. rewrite (link_here_colon _ Hs).
    simpl in Hs. apply andb_prop in Hs as [_ Hs]. by apply IH.
Qed.

Lemma string_drop_all_chars p n s :
  all_chars p s = true -> all_chars p (string_drop n s) = true.
Proof.
  revert s. induction n as [|n IH]; intros [|c s] H; try done.
  simpl in *. apply andb_prop in H as [_ H]. by apply IH.
Qed.

Lemma update_file_run fuel add_fuel req w :
  update_file fuel add_fuel req w =
  match replace_links fuel add_fuel (body_text req) 0 w with
  | Some (Return t, w') => Some (Return (SendJson CREATED (JText t)), w')
  | Some (Throw e, w') => Some (Return (doErrors e), w')
  | None => None
  end.
Proof.
  unfold update_file, errorWrap, catch, mbind, M_bind, bind, mret, M_ret, ret.
  by destruct (replace_links _ _ _ _ w) as [[[t|e] w']|].
Qed.

Lemma replace_links_step fuel add_fuel text li w :
  replace_links (S fuel) add_fuel text li w =
  match regex_exec text li with
  | None => Some (Return text, w)
  | Some (m, li') =>
      match add add_fuel m w with
      | Some (Return v, w1) =>
          match replace_links fuel add_fuel (String_replace text m v) li' w1 with
          | Some (Throw _, w2) => Some (Return text, w2)
          | other => other
          end
      | Some (Throw _, w1) => Some (Return text, w1)
      | None => None
      end
  end.
Proof.
  cbn [replace_links]. destruct (regex_exec text li) as [[m li']|]; [| done].
  unfold catch, mbind, M_bind, bind, mret, M_ret, ret.
  destruct (add add_fuel m w) as [[[v|e] w1]|]; [| done | done].
  by destruct (replace_links _ _ _ _ w1) as [[[t|e] w2]|].
Qed.


(** X17. A text without a colon has no link: [update_file] answers the
    text as it is with status 201 and leaves the store as it is. *)
Theorem update_file_no_link fuel add_fuel req w :
  all_chars (not_char 58) (body_text req) = true ->
  update_file (S fuel) add_fuel req w =
  Some (Return (SendJson CREATED (JText (body_text req))), w).
Proof.
  intros Hs. rewrite update_file_run, replace_links_step.
  unfold regex_exec. cbn [Nat.leb string_drop].
  by rewrite (link_search_colon _ _ Hs).
Qed.


Lemma steps_app w es w1 es' w2 :
  steps w es w1 -> steps w1 es' w2 -> steps w (es ++ es') w2.
Proof.
  induction 1 as [|w fuel req out w0 es w1 Hh Hs IH]; intros H2; [done |].
  simpl. econstructor; eauto.
Qed.




(** X19. The [try] of [update_file] is around the whole loop: when [add]
    throws for the first link that the pattern finds, the loop ends, and
    the text is answered as it is with status 201, whatever links follow
    in it; in a well-formed store the store is left as it is. *)
Theorem update_file_stops_at_failure fuel add_fuel req w m lastIndex e w1 :
  store_wf w ->
  regex_exec (body_text req) 0 = Some (m, lastIndex) ->
  add add_fuel m w = Some (Throw e, w1) ->
  update_file (S fuel) add_fuel req w =
  Some (Return (SendJson CREATED (JText (body_text req))), w).
Proof.
  intros Hwf Hx Ha. destruct (add_throw _ _ _ _ _ Hwf Ha) as [-> _].
  by rewrite update_file_run, replace_links_step, Hx, Ha.
Qed.

(** *** Strings: lengths, dropping, searching *)

Lemma length_append a b :
  String.length (a +:+ b) = (String.length a + String.length b)%nat.
Proof. induction a as [|x a IH]; simpl; [done | by rewrite IH]. Qed.

Lemma length_toLowerCase s : String.length (toLowerCase s) = String.length s.
Proof. induction s as [|x s IH]; simpl; [done | by rewrite IH]. Qed.

Lemma string_drop_append a x : string_drop (String.length a) (a +:+ x) = x.
Proof. induction a as [|c a IH]; simpl; [done | exact IH]. Qed.

Lemma string_drop_drop n k s :
  string_drop (n + k) s = string_drop k (string_drop n s).
Proof.
  revert s. induction n as [|n IH]; intros s; [done |].
  destruct s as [|c s]; simpl; [by destruct k | apply IH].
Qed.

Lemma prefix_append p t : String.prefix p (p +:+ t) = true.
Proof.
  induction p as [|c p IH]; simpl; [by destruct t |].
  by destruct (ascii_dec c c).
Qed.

Lemma index_of_unfold pat s :
  index_of pat s =
  if String.prefix pat s
  then Some (EmptyString, string_drop (String.length pat) s)
  else
    match s with
    | EmptyString => None
    | String c s' =>
        match index_of pat s' with
        | Some (before, after) => Some (String c before, after)
        | None => None
        end
    end.
Proof. by destruct s. Qed.

Lemma index_of_head p t : index_of p (p +:+ t) = Some (EmptyString, t).
Proof. by rewrite index_of_unfold, prefix_append, string_drop_append. Qed.

Lemma all_chars_impl (p q : ascii -> bool) s :
  (forall c, p c = true -> q c = true) ->
  all_chars p s = true -> all_chars q s = true.
Proof.
  intros Hpq. induction s as [|c s IH]; simpl; [done |]. intros H.
  apply andb_prop in H as [Hc H]. by rewrite (Hpq _ Hc), IH.
Qed.

Lemma get_substitution_plain matched before after r :
  all_chars (not_char 36) r = true ->
  get_substitution matched before after r = r.
Proof.
  induction r as [|c r IH]; simpl; [done |]. intros H.
  apply andb_prop in H as [Hc H]. rewrite bool_decide_eq_false_2.
  - by rewrite IH.
  - intros ->. done.
Qed.

Lemma String_replace_head m t v :
  all_chars (not_char 36) v = true ->
  String_replace (m +:+ t) m v = v +:+ t.
Proof.
  intros Hv. unfold String_replace.
  by rewrite index_of_head, get_substitution_plain.
Qed.

Lemma is_word_not_dollar c : is_word c = true -> not_char 36 c = true.
Proof. destruct c as [[] [] [] [] [] [] [] []]; vm_compute; done. Qed.

Lemma is_digit36_plain c :
  is_digit36 c = true -> not_char 36 c = true /\ not_slash c = true.
Proof. destruct c as [[] [] [] [] [] [] [] []]; vm_compute; done. Qed.

(** A short URL that [add] returns has no [$] when the base has none. *)
Lemma short_url_plain sch sk :
  all_chars is_word sch = true ->
  all_chars (not_char 36) (this_base this) = true ->
  minted sk ->
  all_chars (not_char 36) (sch +:+ "://" +:+ sk) = true.
Proof.
  intros Hw Hb (n & ->). rewrite !all_chars_append.
  rewrite (all_chars_impl _ _ _ is_word_not_dollar Hw), Hb.
  rewrite (all_chars_impl is_digit36 (not_char 36) (toString36 n));
    [done | by intros c Hc; apply is_digit36_plain |].
  by apply toString36_aux_digits.
Qed.

Lemma slashes_append a b : slashes (a +:+ b) = (slashes a + slashes b)%nat.
Proof.
  induction a as [|c a IH]; simpl; [done |]. rewrite IH.
  by destruct (not_slash c).
Qed.

Lemma slashes_none s : all_chars not_slash s = true -> slashes s = O.
Proof.
  induction s as [|c s IH]; simpl; [done |]. intros H.
  apply andb_prop in H as [-> H]. by apply IH.
Qed.

Lemma slashes_drop n s : (slashes (string_drop n s) <= slashes s)%nat.
Proof.
  revert s. induction n as [|n IH]; intros [|c s]; simpl; try lia.
  specialize (IH s). destruct (not_slash c); lia.
Qed.

(** *** The pattern of [update_file] *)

Lemma after_scheme_shape x m t :
  after_scheme x = Some (m, t) ->
  exists a r m',
    x = String ":" (String "/" (String "/" (String a r))) /\
    is_alnum a = true /\ url_tail (String a r) = (m', t) /\
    m = "://" +:+ m'.
Proof.
  destruct x as [|c1 x]; [done |].
  destruct c1 as [[] [] [] [] [] [] [] []]; try done.
  destruct x as [|c2 x]; [done |].
  destruct c2 as [[] [] [] [] [] [] [] []]; try done.
  destruct x as [|c3 x]; [done |].
  destruct c3 as [[] [] [] [] [] [] [] []]; try done.
  destruct x as [|a r]; [done |].
  unfold after_scheme. destruct (is_alnum a) eqn:Ha; [| discriminate].
  destruct (url_tail (String a r)) as [m' t'] eqn:Ht.
  intros [= <- <-]. by exists a, r, m'.
Qed.

Lemma link_here_slashes s m t :
  link_here s = Some (m, t) -> (2 <= slashes s)%nat.
Proof.
  intros Hl.
  assert (Hx : forall x m t, after_scheme x = Some (m, t) ->
                 (2 <= slashes x)%nat).
  { intros x m0 t0 Ha.
    destruct (after_scheme_shape _ _ _ Ha) as (a & r & m' & -> & _).
    simpl. destruct (not_slash a); lia. }
  assert (Hc : forall c x, (slashes x <= slashes (String c x))%nat).
  { intros c x. simpl. destruct (not_slash c); lia. }
  unfold link_here in Hl.
  destruct s as [|h [|t1 [|t2 [|p r]]]]; try done.
  destruct (_ && _); [| done].
  assert (2 <= slashes r)%nat.
  { destruct r as [|c r']; [done |].
    destruct (after_scheme (String c r')) as [[m1 t1']|] eqn:H1.
    - by eapply Hx.
    - destruct (ci_match "s" c); [| done].
      destruct (after_scheme r') as [[m2 t2']|] eqn:H2; [| done].
      etrans; [by eapply Hx | apply Hc]. }
  etrans; [done |]. do 4 (etrans; [| apply Hc]). done.
Qed.

Lemma link_search_slashes s i : (slashes s <= 1)%nat -> link_search s i = None.
Proof.
  revert i. induction s as [|c s IH]; intros i Hs.
  - done.
  - cbn [link_search].
    destruct (link_here (String c s)) as [[m t]|] eqn:Hl.
    + apply link_here_slashes in Hl. lia.
    + apply IH. simpl in Hs. destruct (not_slash c); lia.
Qed.

Lemma link_search_head s m t i :
  link_here s = Some (m, t) ->
  link_search s i = Some (m, (i + String.length m)%nat).
Proof. intros H. destruct s; cbn [link_search]; by rewrite H. Qed.

Lemma regex_exec_start text m t :
  link_here text = Some (m, t) ->
  regex_exec text 0 = Some (m, String.length m).
Proof.
  intros H. unfold regex_exec. cbn [Nat.leb string_drop].
  by rewrite (link_search_head _ _ _ _ H).
Qed.

(** After the scheme and [://] of a short URL there is one [/]: the
    pattern finds no link there. *)
Lemma regex_exec_in_short_url sch sk t n :
  all_chars not_slash (this_base this) = true ->
  minted sk ->
  all_chars not_slash t = true ->
  (String.length sch + 3 <= n)%nat ->
  regex_exec (sch +:+ "://" +:+ sk +:+ t) n = None.
Proof.
  intros Hb (k & ->) Ht Hn. unfold regex_exec.
  destruct (_ <=? _)%nat; [| done].
  apply link_search_slashes.
  replace n with ((String.length (sch +:+ "://")) + (n - String.length sch - 3))%nat
    by (rewrite length_append; simpl; lia).
  rewrite string_drop_drop.
  replace (sch +:+ "://" +:+ (this_base this +:+ "/" +:+ toString36 k) +:+ t)
    with ((sch +:+ "://") +:+ (this_base this +:+ "/" +:+ toString36 k) +:+ t)
    by (by rewrite !append_assoc).
  rewrite string_drop_append. etrans; [apply slashes_drop |].
  rewrite !slashes_append, (slashes_none _ Hb), (slashes_none _ Ht).
  rewrite (slashes_none (toString36 k)); [simpl; lia |].
  eapply all_chars_impl; [| by apply toString36_aux_digits].
  by intros c Hc; apply is_digit36_plain.
Qed.

Lemma regex_exec_short_url sch sk n :
  all_chars not_slash (this_base this) = true ->
  minted sk ->
  (String.length sch + 3 <= n)%nat ->
  regex_exec (sch +:+ "://" +:+ sk) n = None.
Proof.
  intros Hb Hm Hn. rewrite <- (append_empty_r sk).
  by apply regex_exec_in_short_url.
Qed.

Lemma splitUrl_length u re c :
  splitUrl u re = inr c ->
  (String.length (scheme c) + 4 <= String.length u)%nat.
Proof.
  intros Hs. destruct (splitUrl_inr _ _ _ Hs) as (s & b & r & Hm & _ & _ & ->).
  destruct (url_match_groups _ _ _ _ Hm) as (_ & (Hb & _) & _).
  destruct (url_match_decompose _ _ _ _ Hm) as (pre & post & -> & _).
  cbn [scheme]. rewrite length_toLowerCase, !length_append.
  destruct b as [|y b]; [done |]. simpl. lia.
Qed.

(** X20. For a text that is one link from its first to its last
    character, [update_file] answers the short URL that [add] returns for
    the link, and the store is the one that [add] leaves. The service base
    has no [$], which the replacement would read as a pattern. *)
Theorem update_file_single_link fuel add_fuel req w v w1 :
  store_wf w ->
  well_configured ->
  all_chars (not_char 36) (this_base this) = true ->
  link_here (body_text req) = Some (body_text req, EmptyString) ->
  add add_fuel (body_text req) w = Some (Return v, w1) ->
  update_file (S (S fuel)) add_fuel req w =
  Some (Return (SendJson CREATED (JText v)), w1).
Proof.
  intros Hwf (_ & _ & Hns & _) Hdollar Hl Hadd.
  pose proof (add_wf _ _ _ _ _ Hwf Hadd) as Hwf1.
  destruct (add_return _ _ _ _ _ Hwf Hadd)
    as (c & d & Hs & _ & _ & Hd & _ & _ & ->).
  destruct (proj2 Hwf1 _ _ Hd) as (_ & _ & Hmint).
  pose proof (short_url_plain _ _ (splitUrl_scheme_word _ _ _ Hs) Hdollar Hmint)
    as Hplain.
  pose proof (splitUrl_length _ _ _ Hs) as Hlen.
  rewrite update_file_run, replace_links_step, (regex_exec_start _ _ _ Hl), Hadd.
  rewrite <- (append_empty_r (body_text req)) at 1.
  rewrite (String_replace_head _ _ _ Hplain), append_empty_r.
  rewrite replace_links_step, regex_exec_short_url; [done | done | done | lia].
Qed.

(** *** A link that is passed over *)

Lemma link_char_not_colon c :
  is_alnum c || is_separator c = true -> not_char 58 c = true.
Proof. destruct c as [[] [] [] [] [] [] [] []]; vm_compute; done. Qed.

Lemma url_tail_spec s m t :
  url_tail s = (m, t) ->
  s = m +:+ t /\ all_chars (not_char 58) m = true.
Proof.
  revert m t. induction s as [|c s IH]; intros m t; cbn [url_tail].
  - by intros [= <- <-].
  - destruct (is_alnum c) eqn:Ha.
    + destruct (url_tail s) as [m' t'] eqn:Hs. intros [= <- <-].
      destruct (IH _ _ eq_refl) as [-> Hm]. simpl.
      rewrite Hm, link_char_not_colon; [done | by rewrite Ha].
    + destruct (is_separator c) eqn:Hsep; [| by intros [= <- <-]].
      destruct s as [|c' s']; [by intros [= <- <-] |].
      destruct (is_alnum c'); [| by intros [= <- <-]].
      destruct (url_tail (String c' s')) as [m' t'] eqn:Hs. intros [= <- <-].
      destruct (IH _ _ eq_refl) as [-> Hm]. simpl in *.
      rewrite Hm, link_char_not_colon; [done | by rewrite Hsep, orb_true_r].
Qed.

Lemma link_here_inv s m t :
  link_here s = Some (m, t) ->
  exists a0 a1 a2 a3 r,
    s = String a0 (String a1 (String a2 (String a3 r))) /\
    ci_match "h" a0 = true /\ ci_match "t" a1 = true /\
    ci_match "t" a2 = true /\ ci_match "p" a3 = true /\
    ((exists m', after_scheme r = Some (m', t) /\
        m = String a0 (String a1 (String a2 (String a3 m')))) \/
     (exists c r' m', r = String c r' /\ ci_match "s" c = true /\
        after_scheme r' = Some (m', t) /\
        m = String a0 (String a1 (String a2 (String a3 (String c m')))))).
Proof.
  unfold link_here. destruct s as [|a0 [|a1 [|a2 [|a3 r]]]]; try done.
  destruct (ci_match "h" a0) eqn:H0; [| done].
  destruct (ci_match "t" a1) eqn:H1; [| done].
  destruct (ci_match "t" a2) eqn:H2; [| done].
  destruct (ci_match "p" a3) eqn:H3; [| done].
  cbn [andb]. intros Hl. exists a0, a1, a2, a3, r.
  do 5 (split; [done |]).
  destruct r as [|c r']; [done |].
  destruct (ci_match "s" c) eqn:Hc.
  - destruct (after_scheme r') as [[m' t']|] eqn:Ha.
    + injection Hl as <- <-. right. by exists c, r', m'.
    + destruct (after_scheme (String c r')) as [[m' t']|] eqn:Ha'; [| done].
      injection Hl as <- <-. left. by exists m'.
  - destruct (after_scheme (String c r')) as [[m' t']|] eqn:Ha'; [| done].
    injection Hl as <- <-. left. by exists m'.
Qed.

Lemma link_search_cons c s i :
  link_here (String c s) = None ->
  link_search (String c s) i = link_search s (S i).
Proof. intros H. cbn [link_search]. by rewrite H. Qed.

Lemma link_search_index s i j :
  link_search s i = None -> link_search s j = None.
Proof.
  revert i j. induction s as [|c s IH]; intros i j; cbn [link_search];
    destruct (link_here _) as [[m t]|]; try done. apply IH.
Qed.

Lemma link_search_drop k s i j :
  link_search s i = None -> link_search (string_drop k s) j = None.
Proof.
  revert s i j. induction k as [|k IH]; intros s i j H.
  - by eapply link_search_index.
  - destruct s as [|c s]; [by eapply link_search_index |].
    cbn [string_drop]. cbn [link_search] in H.
    destruct (link_here (String c s)) as [[m t]|]; [done |]. by eapply IH.
Qed.

Lemma ci_match_differ p q c :
  p <> q -> ci_match p c = true -> ci_match q c = true -> False.
Proof.
  unfold ci_match. intros Hpq Hp Hq.
  apply bool_decide_eq_true in Hp, Hq. congruence.
Qed.

(** No position of a string begins a link when its first character is not
    [h], or when one of its next three is a colon. *)
Ltac no_link :=
  match goal with
  | |- link_here ?s = None =>
      let E := fresh "E" in
      destruct (link_here s) as [[? ?]|] eqn:E; [exfalso | reflexivity];
      apply link_here_inv in E as (? & ? & ? & ? & ? & E & ? & ? & ? & ? & _);
      simplify_eq;
      first
        [ match goal with
          | H : ci_match _ _ = true |- _ => vm_compute in H; discriminate H
          end
        | match goal with
          | H1 : ci_match ?p ?c = true, H2 : ci_match ?q ?c = true |- _ =>
              apply (ci_match_differ p q c); [discriminate | exact H1 | exact H2]
          end ]
  end.

(** In a text that is one link, no link begins after the first
    character. *)
Lemma link_inside_link m2 k i :
  link_here m2 = Some (m2, EmptyString) -> (1 <= k)%nat ->
  link_search (string_drop k m2) i = None.
Proof.
  intros Hl Hk. destruct k as [|k]; [lia |].
  destruct (link_here_inv _ _ _ Hl)
    as (a0 & a1 & a2 & a3 & r & Heq & H0 & H1 & H2 & H3 & Hr).
  assert (Hx : forall x m', after_scheme x = Some (m', EmptyString) ->
            exists X, x = String ":" (String "/" (String "/" X)) /\
                      all_chars (not_char 58) X = true).
  { intros x m' Ha.
    destruct (after_scheme_shape _ _ _ Ha) as (a & r0 & m0 & -> & _ & Ht & _).
    destruct (url_tail_spec _ _ _ Ht) as [Hs Hc].
    rewrite append_empty_r in Hs. exists (String a r0). by rewrite Hs. }
  rewrite Heq. cbn [string_drop]. apply (link_search_drop _ _ 0%nat).
  destruct Hr as [(m' & Ha & _) | (c & r' & m' & -> & Hc & Ha & _)];
    destruct (Hx _ _ Ha) as (X & -> & HX).
  - rewrite !link_search_cons by no_link. by apply link_search_colon.
  - rewrite !link_search_cons by no_link. by apply link_search_colon.
Qed.

(** X21. The loop goes on from the index after the link in the text as it
    was, although the replacement has changed the length of the text: when
    the short URL and the text up to the next link are together shorter
    than the link that was replaced, the next link is passed over.
    [update_file] answers the text with the first link replaced and the
    second link as it was, and [add] is not called for the second link. *)
Theorem update_file_skips_link fuel add_fuel req w m1 gap m2 v w1 :
  store_wf w ->
  all_chars (not_char 36) (this_base this) = true ->
  body_text req = m1 +:+ gap +:+ m2 ->
  link_here (m1 +:+ gap +:+ m2) = Some (m1, gap +:+ m2) ->
  link_here m2 = Some (m2, EmptyString) ->
  add add_fuel m1 w = Some (Return v, w1) ->
  (String.length v + String.length gap < String.length m1)%nat ->
  update_file (S (S fuel)) add_fuel req w =
  Some (Return (SendJson CREATED (JText (v +:+ gap +:+ m2))), w1).
Proof.
  intros Hwf Hdollar Htext Hl1 Hl2 Hadd Hlen.
  pose proof (add_wf _ _ _ _ _ Hwf Hadd) as Hwf1.
  destruct (add_return _ _ _ _ _ Hwf Hadd)
    as (c & d & Hs & _ & _ & Hd & _ & _ & Hv).
  destruct (proj2 Hwf1 _ _ Hd) as (_ & _ & Hmint).
  pose proof (short_url_plain _ _ (splitUrl_scheme_word _ _ _ Hs) Hdollar Hmint)
    as Hplain.
  rewrite <- Hv in Hplain.
  rewrite update_file_run, replace_links_step, Htext.
  rewrite (regex_exec_start _ _ _ Hl1), Hadd.
  rewrite (String_replace_head _ _ _ Hplain), replace_links_step.
  assert (Hx : regex_exec (v +:+ gap +:+ m2) (String.length m1) = None).
  { unfold regex_exec. destruct (_ <=? _)%nat; [| done].
    replace (String.length m1)
      with (String.length v
            + (String.length gap
               + (String.length m1 - String.length v - String.length gap)))%nat
      by lia.
    rewrite !string_drop_drop, !string_drop_append.
    apply link_inside_link; [done | lia]. }
  by rewrite Hx.
Qed.

(** ** [make] *)


(** X22. For a store URL made of [mongodb://], a valid authority, [/] and
    a name on one line, and a valid base, [make] returns, once the
    connection is made, the instance whose base is the given base in lower
    case and whose database has that name. *)
Theorem make_returns host name shortenerBase :
  host <> EmptyString ->
  all_chars not_slash host = true ->
  truthy (isBaseError host) = None ->
  all_chars not_line_terminator name = true ->
  truthy (isBaseError shortenerBase) = None ->
  mongo_connect ("mongodb://" +:+ host +:+ "/" +:+ name) = None ->
  make ("mongodb://" +:+ host +:+ "/" +:+ name) shortenerBase =
  Return {| this_base := toLowerCase shortenerBase; this_db := name |}.
Proof.
  intros Hh1 Hh2 Hv Hn Hb Hc.
  assert (Hm : url_match ("mongodb" +:+ "://" +:+ host +:+ "/" +:+ name)
               = Some ("mongodb", host, String "/" name)).
  { apply (url_match_build "mongodb" host (String "/" name)); try done.
    right. eauto. }
  change ("mongodb://" +:+ host +:+ "/" +:+ name)
    with ("mongodb" +:+ "://" +:+ host +:+ "/" +:+ name) in *.
  unfold make, splitUrl. rewrite Hm, Hv. cbn [scheme rest].
  rewrite decide_False by (intros Hx; by apply Hx).
  by rewrite Hb, Hc.
Qed.

End Service.

(** ** Where a well-configured service comes from *)

(** An instance that [make] returns is well configured when the validator
    accepts only authorities that are not empty and have no [/], and
    accepts an authority in lower case whenever it accepts it. *)
Lemma make_well_configured isBaseError mongo_connect mongoDbUrl shortenerBase
    this :
  (forall b, truthy (isBaseError b) = None ->
     b <> EmptyString /\ all_chars not_slash b = true /\
     truthy (isBaseError (toLowerCase b)) = None) ->
  make isBaseError mongo_connect mongoDbUrl shortenerBase = Return this ->
  well_configured isBaseError this.
Proof.
  intros Hvalid. unfold make.
  destruct (splitUrl isBaseError mongoDbUrl None) as [e|c]; [done |].
  destruct (decide (scheme c <> "mongodb")); [done |].
  destruct (truthy (isBaseError shortenerBase)) eqn:Hb; [done |].
  destruct (mongo_connect mongoDbUrl); [done |]. intros [= <-].
  destruct (Hvalid _ Hb) as (Hne & Hns & Hlow).
  unfold well_configured, new_UrlShortener. cbn [this_base].
  auto using toLowerCase_nonempty, toLowerCase_not_slash, toLowerCase_idemp.
Qed.

(** ** The claims on the sample service *)

Example toString36_0 : toString36 0 = "0".
Proof. reflexivity. Qed.

Example toString36_35 : toString36 35 = "z".
Proof. reflexivity. Qed.

Example toString36_36 : toString36 36 = "10".
Proof. reflexivity. Qed.

Example toString36_max : toString36 (MAX_RAND - 1) = "1z141z3".
Proof. vm_compute. reflexivity. Qed.

Example url_match_plain :
  url_match "http://Foo.com/bar?x=1" = Some ("http", "Foo.com", "/bar?x=1").
Proof. vm_compute. reflexivity. Qed.

Example url_match_inner :
  url_match "see ht-tp://a.b/c" = Some ("tp", "a.b", "/c").
Proof. vm_compute. reflexivity. Qed.

Example url_match_triple_slash : url_match "http:///foo" = None.
Proof. vm_compute. reflexivity. Qed.

Lemma sample_well_configured :
  well_configured sample_isBaseError sample_service.
Proof. repeat split; vm_compute; (reflexivity || discriminate). Qed.

Lemma sample_add_first :
  add sample_isBaseError sample_random sample_service 1
    "http://foo.com/bar" empty_world
  = Some (Return "http://example.com:3000/0", sample_world).
Proof. vm_compute. reflexivity. Qed.

Lemma sample_add_second :
  add sample_isBaseError sample_random sample_service 2
    "http://foo.com/baz" sample_world
  = Some (Return "http://example.com:3000/1", sample_world_two).
Proof. vm_compute. reflexivity. Qed.

(** One draw is not enough for the second [add]: it collides. *)
Example sample_add_second_collides :
  add sample_isBaseError sample_random sample_service 1
    "http://foo.com/baz" sample_world = None.
Proof. vm_compute. reflexivity. Qed.

Lemma sample_world_wf : store_wf sample_service sample_world.
Proof.
  apply (transition_wf sample_random sample_service empty_world);
    [apply store_wf_empty |].
  eapply add_transition; [apply store_wf_empty | apply sample_add_first].
Qed.

Lemma sample_world_inactive_steps :
  steps sample_isBaseError sample_random sample_service sample_world
    [ (Query "http://example.com:3000/0", Return (Value "http://foo.com/bar"));
      (Query "https://example.com:3000/0", Return (Value "https://foo.com/bar"));
      (Add "http://example.com:3000/0",
       Throw (makeError DOMAIN
                "url http://example.com:3000/0 has same base example.com:3000 as shortener"));
      (Query "http://example.com:3000/0", Return (Value "http://foo.com/bar"));
      (Deactivate "HTTP://FOO.COM/bar", Return Done) ]
    sample_world_inactive.
Proof.
  repeat (eapply (steps_cons _ _ _ _ 0%nat); [vm_compute; reflexivity |]).
  apply steps_nil.
Qed.

Lemma sample_world_inactive_wf : store_wf sample_service sample_world_inactive.
Proof.
  eapply steps_wf; [apply sample_world_wf | apply sample_world_inactive_steps].
Qed.

Lemma add_idempotent_witness :
  (exists fuel v w1,
     add sample_isBaseError sample_random sample_service fuel
       "HTTP://Foo.com/Bar" empty_world = Some (Return v, w1)) /\
  (forall fuel v w1,
     add sample_isBaseError sample_random sample_service fuel
       "HTTP://Foo.com/Bar" empty_world = Some (Return v, w1) ->
     (exists d,
        found_in sample_service w1
          {| scheme := "http"; base := "foo.com"; rest := "/Bar" |} = Some d /\
        v = "http" +:+ "://" +:+ shortUrl d) /\
     forall fuel',
       add sample_isBaseError sample_random sample_service fuel'
         "HTTP://Foo.com/Bar" w1 = Some (Return v, w1)).
Proof.
  apply (add_idempotent sample_isBaseError sample_random sample_service
           empty_world "HTTP://Foo.com/Bar"
           {| scheme := "http"; base := "foo.com"; rest := "/Bar" |}).
  - apply store_wf_empty.
  - vm_compute. reflexivity.
  - vm_compute. discriminate.
  - exists 0%nat. vm_compute. reflexivity.
Defined.

Lemma query_add_round_trip_witness :
  url_match "HTTP://Foo.com/Bar" = Some ("HTTP", "Foo.com", "/Bar") /\
  forall fuel v w1,
    add sample_isBaseError sample_random sample_service fuel
      "HTTP://Foo.com/Bar" sample_world = Some (Return v, w1) ->
    exists w2,
      query sample_isBaseError sample_service v w1
      = Some (Return "http://foo.com/Bar", w2).
Proof.
  split; [vm_compute; reflexivity |].
  apply (query_add_round_trip sample_isBaseError sample_random sample_service
           sample_world "HTTP://Foo.com/Bar"
           {| scheme := "http"; base := "foo.com"; rest := "/Bar" |}).
  - apply sample_world_wf.
  - apply sample_well_configured.
  - vm_compute. reflexivity.
  - vm_compute. discriminate.
  - exists 1%nat. vm_compute. reflexivity.
Defined.

(** C3, the claim as stated fails: two long URLs that differ, in the case
    of the letters of the scheme and of the authority, get the same short
    URL; and the same long URL under [https] gets the same short key. *)
Lemma distinct_long_urls_same_short_url :
  "http://foo.com/bar" <> "HTTP://FOO.com/bar" /\
  add sample_isBaseError sample_random sample_service 1
    "http://foo.com/bar" empty_world
  = Some (Return "http://example.com:3000/0", sample_world) /\
  add sample_isBaseError sample_random sample_service 1
    "HTTP://FOO.com/bar" sample_world
  = Some (Return "http://example.com:3000/0", sample_world) /\
  add sample_isBaseError sample_random sample_service 1
    "https://foo.com/bar" sample_world
  = Some (Return "https://example.com:3000/0", sample_world).
Proof. repeat split; (discriminate || (vm_compute; reflexivity)). Qed.

Lemma distinct_long_urls_distinct_short_urls_witness :
  "http://example.com:3000/0" <> "http://example.com:3000/1" /\
  forall k k' sk,
    urls sample_world_two !! k = Some sk ->
    urls sample_world_two !! k' = Some sk -> k = k'.
Proof.
  apply (distinct_long_urls_distinct_short_urls
           sample_isBaseError sample_random sample_service
           empty_world 1 "http://foo.com/bar" "http://example.com:3000/0"
           sample_world [] sample_world
           2 "http://foo.com/baz" "http://example.com:3000/1" sample_world_two
           {| scheme := "http"; base := "foo.com"; rest := "/bar" |}
           {| scheme := "http"; base := "foo.com"; rest := "/baz" |}).
  - apply store_wf_empty.
  - apply sample_add_first.
  - apply steps_nil.
  - apply sample_add_second.
  - vm_compute. reflexivity.
  - vm_compute. reflexivity.
  - vm_compute. discriminate.
Defined.

Lemma deactivate_hides_witness :
  exists c d w3,
    splitUrl sample_isBaseError "http://foo.com/bar" (Some https_regex) = inr c /\
    found_in sample_service sample_world c = Some d /\
    longUrl d = key_of c /\
    "http://example.com:3000/0" = scheme c +:+ "://" +:+ shortUrl d /\
    deactivate sample_isBaseError sample_service "http://foo.com/bar" sample_world
    = Some (Return tt, w3) /\
    query sample_isBaseError sample_service "http://example.com:3000/0" w3
    = Some (Throw (makeError NOT_FOUND
                     ("http://example.com:3000/0" +:+ " not found")), w3) /\
    info sample_isBaseError sample_service "http://foo.com/bar" w3
    = Some (Return (set_isActive false d), w3).
Proof.
  apply (deactivate_hides sample_isBaseError sample_random sample_service
           1 empty_world "http://foo.com/bar" "http://example.com:3000/0"
           sample_world [] sample_world).
  - apply store_wf_empty.
  - apply sample_well_configured.
  - apply sample_add_first.
  - apply steps_nil.
Defined.

Lemma add_reactivates_witness :
  exists d' w',
    add sample_isBaseError sample_random sample_service 0
      "https://foo.com/bar" sample_world_inactive
    = Some (Return "https://example.com:3000/0", w') /\
    found_in sample_service w'
      {| scheme := "https"; base := "foo.com"; rest := "/bar" |} = Some d' /\
    isActive d' = true /\
    longUrl d' = "foo.com/bar" /\ shortUrl d' = "example.com:3000/0" /\
    count d' = 3 /\
    infos w' = <["example.com:3000/0" := d']> (infos sample_world_inactive) /\
    urls w' = urls sample_world_inactive.
Proof.
  apply (add_reactivates sample_isBaseError sample_random sample_service
           0 sample_world_inactive "https://foo.com/bar"
           {| scheme := "https"; base := "foo.com"; rest := "/bar" |}
           {| longUrl := "foo.com/bar"; shortUrl := "example.com:3000/0";
              count := 3; isActive := false |}).
  - apply sample_world_inactive_wf.
  - vm_compute. reflexivity.
  - vm_compute. discriminate.
  - vm_compute. reflexivity.
  - reflexivity.
Defined.

Lemma sample_world_limit_wf : store_wf sample_service sample_world_limit.
Proof.
  apply (transition_wf sample_random sample_service sample_world);
    [apply sample_world_wf |].
  replace sample_world_limit
    with (with_infos (updateOne "example.com:3000/0" (set_count (2 ^ 53))
                        (infos sample_world)) sample_world)
    by (vm_compute; reflexivity).
  by apply transition_update.
Qed.

(** C6, the claim as stated fails: the [count] of a record is a double,
    and at 2^53 a successful [query] leaves it, and the store, as it is. *)
Lemma query_leaves_count_at_limit :
  (exists d,
     infos sample_world_limit !! "example.com:3000/0" = Some d /\
     count d = 2 ^ 53 /\ Number_add1 (count d) <> count d + 1) /\
  query sample_isBaseError sample_service "http://example.com:3000/0"
    sample_world_limit
  = Some (Return "http://foo.com/bar", sample_world_limit).
Proof.
  split; [| vm_compute; reflexivity].
  eexists. split; [vm_compute; reflexivity |]. split; [reflexivity |].
  vm_compute. discriminate.
Qed.

Lemma query_increments_count_witness :
  exists d',
    infos sample_world_inactive !! "example.com:3000/0" = Some d' /\
    count d' = 0 + 3.
Proof.
  destruct (query_increments_count sample_isBaseError sample_random
              sample_service sample_world sample_world_wf) as [_ Hrun].
  apply (Hrun _ _ "example.com:3000/0"
           {| longUrl := "foo.com/bar"; shortUrl := "example.com:3000/0";
              count := 0; isActive := true |} sample_world_inactive_steps).
  - vm_compute. reflexivity.
  - vm_compute. discriminate.
Defined.

(** C7, the claim as stated fails: the validator accepts the authority
    [foo.com], the long URL is mapped and [info] finds it under [http], and
    [info] of the same URL under [ftp] throws [URL_SYNTAX]. *)
Lemma info_rejects_ftp :
  url_match "ftp://foo.com/bar" = Some ("ftp", "foo.com", "/bar") /\
  truthy (sample_isBaseError "foo.com") = None /\
  info sample_isBaseError sample_service "http://foo.com/bar" sample_world
  = Some (Return {| longUrl := "foo.com/bar"; shortUrl := "example.com:3000/0";
                    count := 0; isActive := true |}, sample_world) /\
  info sample_isBaseError sample_service "ftp://foo.com/bar" sample_world
  = Some (Throw (makeError URL_SYNTAX
                   ("invalid scheme " +:+ dquote +:+ "ftp" +:+ dquote)),
          sample_world).
Proof. repeat split; vm_compute; reflexivity. Qed.

Lemma info_scheme_filter_witness :
  info sample_isBaseError sample_service "HTTPS://Foo.com/bar" sample_world
  = Some (Return {| longUrl := "foo.com/bar"; shortUrl := "example.com:3000/0";
                    count := 0; isActive := true |}, sample_world).
Proof.
  destruct (info_scheme_filter sample_isBaseError sample_service sample_world
              "HTTPS://Foo.com/bar" "HTTPS" "Foo.com" "/bar") as [_ ->].
  - vm_compute. reflexivity.
  - vm_compute. reflexivity.
  - vm_compute. reflexivity.
Defined.



Example make_sample :
  make sample_isBaseError sample_connect
    "mongodb://localhost:27017/urls" "LocalHost:2345"
  = Return {| this_base := "localhost:2345"; this_db := "urls" |} /\
  make sample_isBaseError sample_connect "http://localhost:27017/urls" "" =
  Throw (makeError BAD_MONGO_URL
           ("bad scheme " +:+ dquote +:+ "http" +:+ dquote +:+ "; must be "
            +:+ dquote +:+ "mongodb" +:+ dquote)) /\
  make sample_isBaseError sample_connect "mongodb://localhost:27017/urls" "a/b" =
  Throw (makeError BAD_SHORTENER_BASE "bad domain a/b").
Proof. repeat split; vm_compute; reflexivity. Qed.

Lemma query_lost_update_witness :
  query_interleaved sample_isBaseError sample_service
    "http://example.com:3000/0" "http://example.com:3000/0" sample_world
  = Some (Return ("http://foo.com/bar", "http://foo.com/bar"),
          with_infos
            (<["example.com:3000/0" :=
                 {| longUrl := "foo.com/bar"; shortUrl := "example.com:3000/0";
                    count := 0 + 1; isActive := true |}]> (infos sample_world))
            sample_world) /\
  query_in_turn sample_isBaseError sample_service
    "http://example.com:3000/0" "http://example.com:3000/0" sample_world
  = Some (Return ("http://foo.com/bar", "http://foo.com/bar"),
          with_infos
            (<["example.com:3000/0" :=
                 {| longUrl := "foo.com/bar"; shortUrl := "example.com:3000/0";
                    count := 0 + 1 + 1; isActive := true |}]>
               (infos sample_world))
            sample_world).
Proof.
  destruct (query_lost_update sample_isBaseError sample_service sample_world
              "http://example.com:3000/0"
              {| scheme := "http"; base := "example.com:3000"; rest := "/0" |}
              {| longUrl := "foo.com/bar"; shortUrl := "example.com:3000/0";
                 count := 0; isActive := true |})
    as (Hinter & Hturn & _).
  - apply sample_world_wf.
  - vm_compute. reflexivity.
  - vm_compute. reflexivity.
  - reflexivity.
  - split; [exact Hinter | exact Hturn].
Defined.


(** ** The further properties at the sample service *)

Definition sample_req (url text : string) : Req :=
  {| protocol := "http"; hostname := "Example.com"; originalUrl := "/0";
     query_url := QString url; body_text := text |}.

(** A request without the parameter [url]. *)
Definition sample_req_no_url : Req :=
  {| protocol := "http"; hostname := "Example.com"; originalUrl := "/x-url";
     query_url := QUndefined; body_text := "" |}.

Lemma splitUrl_sound_witness :
  exists pre s b post,
    "see HTTP://Foo.com/a b" = pre +:+ s +:+ "://" +:+ b +:+ "/a b" +:+ post /\
    "http" = toLowerCase s /\ "foo.com" = toLowerCase b.
Proof.
  destruct (splitUrl_sound sample_isBaseError "see HTTP://Foo.com/a b"
              (Some https_regex)
              {| scheme := "http"; base := "foo.com"; rest := "/a b" |})
    as (pre & s & b & post & Hu & Hs & Hb & _).
  - vm_compute. reflexivity.
  - by exists pre, s, b, post.
Defined.

Lemma key_of_injective_witness :
  "foo.com" = "foo.com" /\ "/x.y" = "/x.y".
Proof.
  apply (key_of_injective sample_isBaseError
           "http://Foo.com/x.y" (Some https_regex)
           {| scheme := "http"; base := "foo.com"; rest := "/x.y" |}
           "HTTPS://foo.COM/x.y" None
           {| scheme := "https"; base := "foo.com"; rest := "/x.y" |}).
  - vm_compute. reflexivity.
  - vm_compute. reflexivity.
  - vm_compute. reflexivity.
Defined.

Lemma token_bounds_witness :
  drawn sample_random 75 < MAX_RAND /\
  draw_key sample_random sample_service 75
  = this_base sample_service +:+ "/" +:+ toString36 (drawn sample_random 75) /\
  (1 <= String.length (toString36 (drawn sample_random 75)) <= 7)%nat /\
  all_chars is_digit36 (toString36 (drawn sample_random 75)) = true.
Proof.
  apply (token_bounds sample_random sample_service 75).
  - vm_compute. discriminate.
  - vm_compute. reflexivity.
Defined.

Lemma failed_request_leaves_store_witness :
  sample_world = sample_world /\
  (code (makeError NOT_FOUND "http://example.com:3000/1 not found") = URL_SYNTAX \/
   code (makeError NOT_FOUND "http://example.com:3000/1 not found") = DOMAIN \/
   code (makeError NOT_FOUND "http://example.com:3000/1 not found") = NOT_FOUND).
Proof.
  apply (failed_request_leaves_store sample_isBaseError sample_random
           sample_service 0 (Query "http://example.com:3000/1") sample_world).
  - apply sample_world_wf.
  - vm_compute. reflexivity.
Defined.

Lemma add_query_disjoint_witness :
  (forall w', exists msg,
     query sample_isBaseError sample_service "http://foo.com/bar" w'
     = Some (Throw (makeError DOMAIN msg), w')) /\
  (forall fuel' w', exists msg,
     add sample_isBaseError sample_random sample_service fuel'
       "http://example.com:3000/0" w'
     = Some (Throw (makeError DOMAIN msg), w')).
Proof.
  apply (add_query_disjoint sample_isBaseError sample_random sample_service
           1 "http://foo.com/bar" empty_world "http://example.com:3000/0"
           sample_world).
  - apply store_wf_empty.
  - apply sample_well_configured.
  - apply sample_add_first.
Defined.

Lemma deactivate_idempotent_witness :
  (exists c d,
     splitUrl sample_isBaseError "https://FOO.com/bar" (Some https_regex)
     = inr c /\
     found_in sample_service sample_world_inactive c = Some d /\
     isActive d = false) /\
  deactivate sample_isBaseError sample_service "https://FOO.com/bar"
    sample_world_inactive
  = Some (Return tt, sample_world_inactive).
Proof.
  apply (deactivate_idempotent sample_isBaseError sample_service
           "https://FOO.com/bar" sample_world_inactive sample_world_inactive).
  - apply sample_world_inactive_wf.
  - vm_compute. reflexivity.
Defined.

Lemma short_form_same_record_witness :
  (exists d,
     info sample_isBaseError sample_service "http://foo.com/bar"
       sample_world_inactive = Some (Return d, sample_world_inactive) /\
     info sample_isBaseError sample_service "http://example.com:3000/0"
       sample_world_inactive = Some (Return d, sample_world_inactive)) /\
  deactivate sample_isBaseError sample_service "http://example.com:3000/0"
    sample_world_inactive
  = deactivate sample_isBaseError sample_service "http://foo.com/bar"
      sample_world_inactive.
Proof.
  eapply (short_form_same_record sample_isBaseError sample_random
            sample_service 1 "http://foo.com/bar" empty_world
            "http://example.com:3000/0" sample_world).
  - apply store_wf_empty.
  - apply sample_well_configured.
  - apply sample_add_first.
  - apply sample_world_inactive_steps.
Defined.


Lemma records_persist_witness :
  exists d',
    infos sample_world_inactive !! "example.com:3000/0" = Some d' /\
    longUrl d' = "foo.com/bar" /\ shortUrl d' = "example.com:3000/0" /\
    0 <= count d' /\
    urls sample_world_inactive !! "foo.com/bar" = Some "example.com:3000/0".
Proof.
  eapply (records_persist sample_isBaseError sample_random sample_service
            sample_world _ sample_world_inactive "example.com:3000/0"
            {| longUrl := "foo.com/bar"; shortUrl := "example.com:3000/0";
               count := 0; isActive := true |}).
  - apply sample_world_wf.
  - apply sample_world_inactive_steps.
  - vm_compute. reflexivity.
Defined.

Lemma reachable_store_wf_witness : store_wf sample_service sample_world_two.
Proof.
  apply (reachable_store_wf sample_isBaseError sample_random sample_service
           [ (Add "http://foo.com/bar",
              Return (Value "http://example.com:3000/0"));
             (Add "http://foo.com/baz",
              Return (Value "http://example.com:3000/1")) ]).
  repeat (eapply (steps_cons _ _ _ _ 2%nat); [vm_compute; reflexivity |]).
  apply steps_nil.
Defined.

Lemma handlers_answers_witness :
  (exists u v,
     QUndefined = QString u /\
     Return (SendJson BAD_REQUEST
               (JError BAD_REQUEST TYPE_ERROR
                  "Cannot read property 'match' of undefined"))
     = Return (SendJson CREATED (JValue v)) /\
     add sample_isBaseError sample_random sample_service 0 u sample_world
     = Some (Return v, sample_world)) \/
  (exists c m,
     Return (SendJson BAD_REQUEST
               (JError BAD_REQUEST TYPE_ERROR
                  "Cannot read property 'match' of undefined"))
     = Return (SendJson BAD_REQUEST (JError BAD_REQUEST c m)) /\
     sample_world = sample_world /\
     codes_for QUndefined [URL_SYNTAX; DOMAIN] c).
Proof.
  apply (handlers_answers sample_isBaseError sample_random sample_service
           3000 sample_TypeError_message 0 sample_req_no_url sample_world
           (Return (SendJson BAD_REQUEST
                      (JError BAD_REQUEST TYPE_ERROR
                         "Cannot read property 'match' of undefined")))
           sample_world).
  - apply sample_world_wf.
  - vm_compute. reflexivity.
Defined.

Lemma load_url_resolves_witness :
  load_url sample_isBaseError sample_service 3000 (sample_req "" "")
    sample_world
  = Some (Return (RedirectTo "http://foo.com/bar"),
          with_infos
            (<["example.com:3000/0" :=
                 {| longUrl := "foo.com/bar"; shortUrl := "example.com:3000/0";
                    count := 1; isActive := true |}]> (infos sample_world))
            sample_world).
Proof.
  etrans.
  - apply (load_url_resolves sample_isBaseError sample_service 3000
             (sample_req "" "") "0" sample_world).
    + apply sample_world_wf.
    + apply sample_well_configured.
    + vm_compute. reflexivity.
    + vm_compute. reflexivity.
    + vm_compute. reflexivity.
    + vm_compute. reflexivity.
    + vm_compute. reflexivity.
  - vm_compute. reflexivity.
Defined.

Lemma update_file_no_link_witness :
  update_file sample_isBaseError sample_random sample_service 1 0
    (sample_req "" "no link in www.foo.com/bar") sample_world
  = Some (Return (SendJson CREATED (JText "no link in www.foo.com/bar")),
          sample_world).
Proof.
  apply (update_file_no_link sample_isBaseError sample_random sample_service
           0 0 (sample_req "" "no link in www.foo.com/bar") sample_world).
  vm_compute. reflexivity.
Defined.


Lemma update_file_stops_at_failure_witness :
  update_file sample_isBaseError sample_random sample_service 1 1
    (sample_req "" "http://a?b and http://foo.com/baz") sample_world
  = Some (Return (SendJson CREATED
                    (JText "http://a?b and http://foo.com/baz")),
          sample_world).
Proof.
  apply (update_file_stops_at_failure sample_isBaseError sample_random
           sample_service 0 1
           (sample_req "" "http://a?b and http://foo.com/baz") sample_world
           "http://a?b" 10
           (makeError URL_SYNTAX "bad domain a?b") sample_world).
  - apply sample_world_wf.
  - vm_compute. reflexivity.
  - vm_compute. reflexivity.
Defined.

Lemma update_file_single_link_witness :
  update_file sample_isBaseError sample_random sample_service 2 2
    (sample_req "" "HTTP://foo.com/baz") sample_world
  = Some (Return (SendJson CREATED (JText "http://example.com:3000/1")),
          sample_world_two).
Proof.
  apply (update_file_single_link sample_isBaseError sample_random
           sample_service 0 2 (sample_req "" "HTTP://foo.com/baz")
           sample_world).
  - apply sample_world_wf.
  - apply sample_well_configured.
  - vm_compute. reflexivity.
  - vm_compute. reflexivity.
  - vm_compute. reflexivity.
Defined.

Lemma update_file_skips_link_witness :
  exists w1,
    update_file sample_isBaseError sample_random sample_service 2 1
      (sample_req ""
         "http://foo.com/a-rather-long-path/index, http://b.com/q")
      empty_world
    = Some (Return (SendJson CREATED
                      (JText "http://example.com:3000/0, http://b.com/q")),
            w1).
Proof.
  eexists.
  apply (update_file_skips_link sample_isBaseError sample_random
           sample_service 0 1
           (sample_req ""
              "http://foo.com/a-rather-long-path/index, http://b.com/q")
           empty_world "http://foo.com/a-rather-long-path/index" ", "
           "http://b.com/q" "http://example.com:3000/0").
  - apply store_wf_empty.
  - vm_compute. reflexivity.
  - vm_compute. reflexivity.
  - vm_compute. reflexivity.
  - vm_compute. reflexivity.
  - vm_compute. reflexivity.
  - vm_compute. lia.
Defined.

Lemma make_returns_witness :
  make sample_isBaseError sample_connect "mongodb://localhost:27017/urls"
    "Example.com:3000"
  = Return sample_service.
Proof.
  apply (make_returns sample_isBaseError sample_connect
           "localhost:27017" "urls" "Example.com:3000").
  - discriminate.
  - vm_compute. reflexivity.
  - vm_compute. reflexivity.
  - vm_compute. reflexivity.
  - vm_compute. reflexivity.
  - vm_compute. reflexivity.
Defined.
